(** * Tieline gateway module instance (src/main.js)

    A shallow embedding of the [ModuleInstance] class: its fields, the
    timers it arms through the event loop, the calls it makes to its
    collaborators ([auth], [matrix], [heartbeat], the host runtime) and the
    points at which its [async] methods suspend.

    Conventions.
    - JavaScript numbers that hold counters ([ncCounter],
      [reconnectAttempts]) and millisecond delays are integers in [Z];
      double arithmetic is exact on them below 2^53, far above any value
      the counters take.  [Math.pow(2, a)] is [2 ^ a] for [0 <= a];
      where the double overflows to [Infinity] the [Math.min] with 30000
      gives 30000, as [Z.min] does.
    - [null] and [undefined] are [None].
    - [this.matrixVariables] is a plain object: a finite map of its own
      keys, with arrays of strings as values.  Reading a property of it
      also finds what [Object.prototype] provides.
    - An [async] method is cut at each [await] of a collaborator's promise:
      the part before the call is one atomic segment, the part after it is a
      segment that takes the promise's outcome.  Segments of different
      invocations interleave freely (single-threaded event loop).
      The hop between [authenticate()] and its caller [connect()] is not
      a cut of its own.
    - The collaborators are not part of this file: their outcomes are
      supplied by the environment, and every call to one is recorded in the
      trace.  They act on the instance through its methods only (any of
      them may call [digestAuth] at any time): they arm no timer and assign
      no field, except that a successful discovery leaves its result in
      [matrixVariables].  The awaited calls ([auth.authenticate],
      [matrix.fetchMatrixFeatures], [heartbeat.sendHeartbeat]) may throw;
      the synchronous registration calls return. *)

From Stdlib Require Import ZArith List Bool Lia.
From stdpp Require Import base option gmap strings list.

Open Scope Z_scope.
Open Scope string_scope.
Open Scope list_scope.

(** ** Data *)

(** The three required configuration fields.  A field the user left out is
    [None]; an empty text box is [Some ""]. *)
Record Config := mkConfig {
  host : option string;
  username : option string;
  password : option string
}.

(** JavaScript truthiness of a string-or-undefined value, negated: [!v]. *)
Definition js_not (v : option string) : bool :=
  match v with
  | None => true
  | Some EmptyString => true
  | Some (String _ _) => false
  end.

(** [!config.host || !config.username || !config.password] *)
Definition config_incomplete (c : Config) : bool :=
  js_not (host c) || js_not (username c) || js_not (password c).

(** A thrown [Error]; only its [message] is ever read. *)
Record Error := mkError { message : string }.

(** What an awaited or called collaborator did: returned, or threw. *)
Inductive Outcome (A : Type) : Type :=
| Returns (a : A)
| Throws (e : Error).
Arguments Returns {A} a.
Arguments Throws {A} e.

(** The object [auth.authenticate] resolves to. *)
Record AuthResult := mkAuthResult {
  res_authHeader : option string;
  res_csrfToken : option string;
  res_realm : option string;
  res_nonce : option string
}.

(** The object [heartbeat.sendHeartbeat] resolves to. *)
Record HeartbeatResult := mkHeartbeatResult {
  hb_authHeader : option string;
  hb_csrfToken : option string
}.

(** [InstanceStatus] of the host runtime, as far as this file uses it. *)
Inductive InstanceStatus := Connecting | Ok | BadConfig | ConnectionFailure.

Inductive LogLevel := LDebug | LInfo | LWarn | LError.

Module Choice.
Record t := mk { id : string; label : string }.
End Choice.

(** The arguments [digestAuth] hands to [auth.digestAuth]; [nc] is the value
    of [this.ncCounter++]. *)
Record DigestCall := mkDigestCall {
  dc_method : string;
  dc_uri : string;
  dc_realm : string;
  dc_nonce : string;
  dc_username : string;
  dc_password : string;
  nc : Z
}.

(** The template strings passed to [this.log], with their interpolated
    values. *)
Inductive LogMsg :=
| MsgNotConfiguredYet
| MsgInitializing
| MsgVariablesAfterInit (v : option (gmap string (list string)))
| MsgConnectionFailed (e : Error)
| MsgSchedulingReconnect (delay : Z)
| MsgNotFullyConfigured
| MsgHeartbeatFailed (e : Error)
| MsgGettingChoices (type : string)
| MsgAllVariables (v : gmap string (list string))
| MsgNotInitializedOrEmpty (type : string)
| MsgChoicesFor (type : string) (choices : list Choice.t)
| MsgErrorInGetVariableChoices (e : Error).

(** Calls that leave the instance, in the order they are made. *)
Inductive Event :=
| EvLog (lvl : LogLevel) (m : LogMsg)
| EvUpdateStatus (v : InstanceStatus)
| EvUpdateFeedbacks
| EvUpdateVariableDefinitions
| EvUpdateActions
| EvAuthAuthenticate
| EvFetchMatrixFeatures
| EvHeartbeatStart
| EvSendHeartbeat
| EvAuthDigestAuth (c : DigestCall).

(** The calls that talk to the device over HTTP. *)
Definition is_network_call (e : Event) : bool :=
  match e with
  | EvAuthAuthenticate | EvFetchMatrixFeatures | EvSendHeartbeat => true
  | _ => false
  end.

(** The two arrow functions handed to the timers. *)
Inductive Callback :=
| CbConnect      (* () => this.connect() *)
| CbHeartbeat.   (* async () => { ... heartbeat.sendHeartbeat(this) ... } *)

Inductive TimerKind := TimeoutT | IntervalT.

(** An armed timer of the event loop. *)
Record Timer := mkTimer {
  tid : nat;
  kind : TimerKind;
  ms : Z;
  callback : Callback
}.

(** A suspended [async] segment, waiting for a collaborator's promise. *)
Inductive Task :=
| TAuth        (* connect, inside authenticate: await auth.authenticate(this) *)
| TFetch       (* connect: await matrix.fetchMatrixFeatures(this) *)
| THeartbeat.  (* interval callback: await heartbeat.sendHeartbeat(this) *)

(** The fields of [ModuleInstance]. *)
Record Instance := mkInstance {
  config : option Config;
  authHeader : option string;
  csrfToken : option string;
  realm : option string;
  nonce : option string;
  ncCounter : Z;
  heartbeatInterval : option nat;
  lastAuthTime : option Z;
  connectionFailed : bool;
  reconnectTimeout : option nat;
  reconnectAttempts : Z;
  matrixVariables : option (gmap string (list string))
}.

(** The instance together with what surrounds it: the status shown by the
    host, the timers of the event loop, the handle the next timer gets, the
    calls made so far and the suspended segments. *)
Record State := mkState {
  this : Instance;
  status : option InstanceStatus;
  timers : list Timer;
  nextTimer : nat;
  trace : list Event;
  tasks : list Task
}.

(** ** Field updates *)

Definition set_config (v : option Config) (i : Instance) : Instance :=
  mkInstance v (authHeader i) (csrfToken i) (realm i) (nonce i) (ncCounter i)
    (heartbeatInterval i) (lastAuthTime i) (connectionFailed i)
    (reconnectTimeout i) (reconnectAttempts i) (matrixVariables i).

Definition set_authHeader (v : option string) (i : Instance) : Instance :=
  mkInstance (config i) v (csrfToken i) (realm i) (nonce i) (ncCounter i)
    (heartbeatInterval i) (lastAuthTime i) (connectionFailed i)
    (reconnectTimeout i) (reconnectAttempts i) (matrixVariables i).

Definition set_csrfToken (v : option string) (i : Instance) : Instance :=
  mkInstance (config i) (authHeader i) v (realm i) (nonce i) (ncCounter i)
    (heartbeatInterval i) (lastAuthTime i) (connectionFailed i)
    (reconnectTimeout i) (reconnectAttempts i) (matrixVariables i).

Definition set_realm (v : option string) (i : Instance) : Instance :=
  mkInstance (config i) (authHeader i) (csrfToken i) v (nonce i) (ncCounter i)
    (heartbeatInterval i) (lastAuthTime i) (connectionFailed i)
    (reconnectTimeout i) (reconnectAttempts i) (matrixVariables i).

Definition set_nonce (v : option string) (i : Instance) : Instance :=
  mkInstance (config i) (authHeader i) (csrfToken i) (realm i) v (ncCounter i)
    (heartbeatInterval i) (lastAuthTime i) (connectionFailed i)
    (reconnectTimeout i) (reconnectAttempts i) (matrixVariables i).

Definition set_ncCounter (v : Z) (i : Instance) : Instance :=
  mkInstance (config i) (authHeader i) (csrfToken i) (realm i) (nonce i) v
    (heartbeatInterval i) (lastAuthTime i) (connectionFailed i)
    (reconnectTimeout i) (reconnectAttempts i) (matrixVariables i).

Definition set_heartbeatInterval (v : option nat) (i : Instance) : Instance :=
  mkInstance (config i) (authHeader i) (csrfToken i) (realm i) (nonce i)
    (ncCounter i) v (lastAuthTime i) (connectionFailed i)
    (reconnectTimeout i) (reconnectAttempts i) (matrixVariables i).

Definition set_connectionFailed (v : bool) (i : Instance) : Instance :=
  mkInstance (config i) (authHeader i) (csrfToken i) (realm i) (nonce i)
    (ncCounter i) (heartbeatInterval i) (lastAuthTime i) v
    (reconnectTimeout i) (reconnectAttempts i) (matrixVariables i).

Definition set_reconnectTimeout (v : option nat) (i : Instance) : Instance :=
  mkInstance (config i) (authHeader i) (csrfToken i) (realm i) (nonce i)
    (ncCounter i) (heartbeatInterval i) (lastAuthTime i) (connectionFailed i)
    v (reconnectAttempts i) (matrixVariables i).

Definition set_reconnectAttempts (v : Z) (i : Instance) : Instance :=
  mkInstance (config i) (authHeader i) (csrfToken i) (realm i) (nonce i)
    (ncCounter i) (heartbeatInterval i) (lastAuthTime i) (connectionFailed i)
    (reconnectTimeout i) v (matrixVariables i).

Definition set_matrixVariables (v : option (gmap string (list string)))
    (i : Instance) : Instance :=
  mkInstance (config i) (authHeader i) (csrfToken i) (realm i) (nonce i)
    (ncCounter i) (heartbeatInterval i) (lastAuthTime i) (connectionFailed i)
    (reconnectTimeout i) (reconnectAttempts i) v.

(** Apply a field update to [this]. *)
Definition upd_this (f : Instance -> Instance) (st : State) : State :=
  mkState (f (this st)) (status st) (timers st) (nextTimer st) (trace st)
    (tasks st).

Definition set_tasks (ts : list Task) (st : State) : State :=
  mkState (this st) (status st) (timers st) (nextTimer st) (trace st) ts.

(** ** The host runtime and the event loop *)

(** Record a call that leaves the instance. *)
Definition emit (e : Event) (st : State) : State :=
  mkState (this st) (status st) (timers st) (nextTimer st) (trace st ++ [e])
    (tasks st).

(** [this.log(level, message)] *)
Definition log (lvl : LogLevel) (m : LogMsg) (st : State) : State :=
  emit (EvLog lvl m) st.

(** [this.updateStatus(v)] *)
Definition updateStatus (v : InstanceStatus) (st : State) : State :=
  emit (EvUpdateStatus v)
    (mkState (this st) (Some v) (timers st) (nextTimer st) (trace st)
       (tasks st)).

(** [setTimeout(cb, delay)] and [setInterval(cb, period)]: arm a timer under
    a handle never handed out before, and return the handle. *)
Definition arm (k : TimerKind) (cb : Callback) (t : Z) (st : State)
    : nat * State :=
  (nextTimer st,
   mkState (this st) (status st)
     (timers st ++ [mkTimer (nextTimer st) k t cb])
     (S (nextTimer st)) (trace st) (tasks st)).

Definition setTimeout := arm TimeoutT.
Definition setInterval := arm IntervalT.

(** [clearTimeout(h)] and [clearInterval(h)]: the timer with handle [h], if
    it is still armed, is gone; a stale handle changes nothing.  The two
    functions act on one pool of handles. *)
Definition unarm (h : nat) (ts : list Timer) : list Timer :=
  List.filter (fun t => negb (Nat.eqb (tid t) h)) ts.

Definition disarm (h : nat) (st : State) : State :=
  mkState (this st) (status st) (unarm h (timers st)) (nextTimer st)
    (trace st) (tasks st).

Definition clearTimeout := disarm.
Definition clearInterval := disarm.

(** The armed one-shot timers, and the armed repeating timers. *)
Definition is_timeout (t : Timer) : bool :=
  match kind t with TimeoutT => true | IntervalT => false end.

Definition is_interval (t : Timer) : bool :=
  match kind t with TimeoutT => false | IntervalT => true end.

Definition pending_timeouts (st : State) : list Timer :=
  List.filter is_timeout (timers st).

Definition active_intervals (st : State) : list Timer :=
  List.filter is_interval (timers st).

(** ** The methods of [ModuleInstance] *)

(** [constructor(internal)]: the fresh instance, with nothing armed, no
    call made and nothing suspended.  [this.config] and
    [this.matrixVariables] are not assigned. *)
Definition ModuleInstance_constructor : State :=
  mkState
    (mkInstance None None None None None 1 None None false None 0 None)
    None [] 0%nat [] [].

(** [stopHeartbeat()] *)
Definition stopHeartbeat (st : State) : State :=
  match heartbeatInterval (this st) with
  | Some h => upd_this (set_heartbeatInterval None) (clearInterval h st)
  | None => st
  end.

(** [Math.min(30000, 1000 * Math.pow(2, a))] for an attempt count [0 <= a]. *)
Definition reconnect_delay (a : Z) : Z := Z.min 30000 (1000 * 2 ^ a).

(** [scheduleReconnect()] *)
Definition scheduleReconnect (st : State) : State :=
  let st1 :=
    match reconnectTimeout (this st) with
    | Some h => clearTimeout h st
    | None => st
    end in
  let delay := reconnect_delay (reconnectAttempts (this st1)) in
  let st2 :=
    upd_this (set_reconnectAttempts (reconnectAttempts (this st1) + 1)) st1 in
  let (h, st3) := setTimeout CbConnect delay st2 in
  let st4 := upd_this (set_reconnectTimeout (Some h)) st3 in
  log LInfo (MsgSchedulingReconnect delay) st4.

(** [updateActions()], [updateFeedbacks()], [updateVariableDefinitions()]:
    the registration calls into the host runtime. *)
Definition updateActions : State -> State := emit EvUpdateActions.
Definition updateFeedbacks : State -> State := emit EvUpdateFeedbacks.
Definition updateVariableDefinitions : State -> State :=
  emit EvUpdateVariableDefinitions.

(** [startHeartbeat()]: the synchronous part, up to and including
    [setInterval]. *)
Definition startHeartbeat (st : State) : State :=
  let st1 := stopHeartbeat st in
  let st2 := emit EvHeartbeatStart st1 in
  let (h, st3) := setInterval CbHeartbeat 30000 st2 in
  upd_this (set_heartbeatInterval (Some h)) st3.

(** [destroy()] *)
Definition destroy (st : State) : State :=
  let st1 := stopHeartbeat st in
  match reconnectTimeout (this st1) with
  | Some h => clearTimeout h st1
  | None => st1
  end.

(** [digestAuth(method, uri, realm, nonce, username, password)]: the call it
    makes to [auth.digestAuth], whose last argument is [this.ncCounter++]. *)
Definition digestAuth (method uri realm' nonce' username' password' : string)
    (st : State) : DigestCall * State :=
  let c :=
    mkDigestCall method uri realm' nonce' username' password'
      (ncCounter (this st)) in
  (c, emit (EvAuthDigestAuth c)
        (upd_this (set_ncCounter (ncCounter (this st) + 1)) st)).

(** What the property read [variables[type]] can evaluate to:
    [undefined], an array of the mapping, or a value inherited from
    [Object.prototype]: one of its built-in methods (a function, of which
    only [length] matters here) or, under [__proto__], the prototype object
    itself. *)
Inductive JsValue :=
| VUndefined
| VArray (l : list string)
| VFunction (len : Z)
| VObject.

(** The properties every plain object inherits from [Object.prototype],
    with the [length] of each method. *)
Definition Object_prototype : list (string * JsValue) :=
  [("constructor", VFunction 1);
   ("__defineGetter__", VFunction 2);
   ("__defineSetter__", VFunction 2);
   ("hasOwnProperty", VFunction 1);
   ("__lookupGetter__", VFunction 1);
   ("__lookupSetter__", VFunction 1);
   ("isPrototypeOf", VFunction 1);
   ("propertyIsEnumerable", VFunction 1);
   ("toString", VFunction 0);
   ("valueOf", VFunction 0);
   ("__proto__", VObject);
   ("toLocaleString", VFunction 0)].

(** The inherited value of a name, if [Object.prototype] has it. *)
Definition inherited (name : string) : option JsValue :=
  snd <$> List.find (fun p => String.eqb (fst p) name) Object_prototype.
Arguments inherited name : simpl never.

(** [variables[type]] on a plain object ([this.matrixVariables], or the
    literal [{}] when that is unset): an own key first, then the prototype
    chain, else [undefined]. *)
Definition js_get (variables : gmap string (list string)) (type : string)
    : JsValue :=
  match variables !! type with
  | Some l => VArray l
  | None => default VUndefined (inherited type)
  end.

(** [!v]: only [undefined] is falsy among these values. *)
Definition js_falsy (v : JsValue) : bool :=
  match v with
  | VUndefined => true
  | _ => false
  end.

(** [v.length === 0]; an object without [length] gives [undefined === 0]. *)
Definition js_length_is_zero (v : JsValue) : bool :=
  match v with
  | VArray l => match l with [] => true | _ :: _ => false end
  | VFunction n => Z.eqb n 0
  | VUndefined | VObject => false
  end.

(** [v.map(value => ({ id: value, label: value }))]: only an array has
    [map]; calling the [undefined] found elsewhere throws a TypeError. *)
Definition js_map_choices (v : JsValue) : Outcome (list Choice.t) :=
  match v with
  | VArray l => Returns (map (fun value => Choice.mk value value) l)
  | VUndefined =>
      Throws (mkError "Cannot read properties of undefined (reading 'map')")
  | VFunction _ | VObject =>
      Throws (mkError "variables[type].map is not a function")
  end.

(** [getVariableChoices(type)], the [try] block: the state it reaches and
    whether it returned or threw. *)
Definition getVariableChoices_try (type : string) (st : State)
    : State * Outcome (list Choice.t) :=
  let st1 := log LDebug (MsgGettingChoices type) st in
  let variables := default (∅ : gmap string (list string))
                     (matrixVariables (this st1)) in
  let st2 := log LDebug (MsgAllVariables variables) st1 in
  let v := js_get variables type in
  if js_falsy v || js_length_is_zero v
  then (log LWarn (MsgNotInitializedOrEmpty type) st2, Returns [])
  else
    match js_map_choices v with
    | Returns choices =>
        (log LDebug (MsgChoicesFor type choices) st2, Returns choices)
    | Throws e => (st2, Throws e)
    end.

(** [getVariableChoices(type)], with its [catch] block. *)
Definition getVariableChoices (type : string) (st : State)
    : list Choice.t * State :=
  match getVariableChoices_try type st with
  | (st', Returns choices) => (choices, st')
  | (st', Throws error) =>
      ([], log LError (MsgErrorInGetVariableChoices error) st')
  end.

(** [authenticate()], before its [await]: the configuration check.  Reading
    [this.config.host] of an unassigned [this.config] throws a TypeError. *)
Definition authenticate_check (st : State) : option Error :=
  match config (this st) with
  | None =>
      Some (mkError "Cannot read properties of undefined (reading 'host')")
  | Some c =>
      if config_incomplete c
      then Some (mkError "Module not fully configured")
      else None
  end.

(** [authenticate()], after [await auth.authenticate(this)]. *)
Definition authenticate_resume (o : Outcome (option AuthResult)) (st : State)
    : Error + State :=
  match o with
  | Throws e => inl e
  | Returns None => inl (mkError "Authentication failed")
  | Returns (Some result) =>
      inr (upd_this (set_nonce (res_nonce result))
          (upd_this (set_realm (res_realm result))
          (upd_this (set_csrfToken (res_csrfToken result))
          (upd_this (set_authHeader (res_authHeader result)) st))))
  end.

(** [connect()], the [catch] block. *)
Definition connect_catch (error : Error) (st : State) : State :=
  let st1 := log LError (MsgConnectionFailed error) st in
  let st2 := updateStatus ConnectionFailure st1 in
  let st3 := upd_this (set_connectionFailed true) st2 in
  scheduleReconnect st3.

(** [connect()], up to [await auth.authenticate(this)]: either the
    configuration check throws and the [catch] block runs, or the call is
    made and [connect] is suspended on it. *)
Definition connect_begin (st : State) : State * option Task :=
  match authenticate_check st with
  | Some e => (connect_catch e st, None)
  | None => (emit EvAuthAuthenticate st, Some TAuth)
  end.

(** [connect()], from the outcome of [auth.authenticate] up to
    [await matrix.fetchMatrixFeatures(this)]. *)
Definition connect_after_auth (o : Outcome (option AuthResult)) (st : State)
    : State * option Task :=
  match authenticate_resume o st with
  | inl e => (connect_catch e st, None)
  | inr st1 => (emit EvFetchMatrixFeatures st1, Some TFetch)
  end.

(** [connect()], from the outcome of [matrix.fetchMatrixFeatures] to the end.
    A successful discovery leaves its result in [this.matrixVariables]. *)
Definition connect_after_fetch
    (o : Outcome (option (gmap string (list string)))) (st : State) : State :=
  match o with
  | Throws e => connect_catch e st
  | Returns mv =>
      let st1 := upd_this (set_matrixVariables mv) st in
      let st2 := log LDebug (MsgVariablesAfterInit mv) st1 in
      let st3 := updateActions st2 in
      let st4 := startHeartbeat st3 in
      let st5 := updateStatus Ok st4 in
      let st6 := upd_this (set_connectionFailed false) st5 in
      upd_this (set_reconnectAttempts 0) st6
  end.

(** [connect()] run from start to end with nothing else in between, the
    collaborators answering [o_auth] and [o_fetch]. *)
Definition connect (o_auth : Outcome (option AuthResult))
    (o_fetch : Outcome (option (gmap string (list string)))) (st : State)
    : State :=
  match connect_begin st with
  | (st1, None) => st1
  | (st1, Some _) =>
      match connect_after_auth o_auth st1 with
      | (st2, None) => st2
      | (st2, Some _) => connect_after_fetch o_fetch st2
      end
  end.

(** [init(config)], up to the first suspension. *)
Definition init (cfg : Config) (st : State) : State * option Task :=
  let st1 := upd_this (set_config (Some cfg)) st in
  let st2 := updateStatus Connecting st1 in
  let st3 := updateFeedbacks st2 in
  let st4 := updateVariableDefinitions st3 in
  if config_incomplete cfg
  then (updateStatus BadConfig (log LWarn MsgNotConfiguredYet st4), None)
  else connect_begin (log LInfo MsgInitializing st4).

(** [configUpdated(config)], up to the first suspension. *)
Definition configUpdated (cfg : Config) (st : State) : State * option Task :=
  let st1 := upd_this (set_config (Some cfg)) st in
  if config_incomplete cfg
  then (updateStatus BadConfig (log LWarn MsgNotFullyConfigured st1), None)
  else connect_begin (stopHeartbeat st1).

(** The interval callback, up to [await heartbeat.sendHeartbeat(this)]. *)
Definition heartbeat_tick (st : State) : State * option Task :=
  (emit EvSendHeartbeat st, Some THeartbeat).

(** The interval callback, from the outcome of [heartbeat.sendHeartbeat]. *)
Definition heartbeat_after (o : Outcome (option HeartbeatResult)) (st : State)
    : State :=
  match o with
  | Returns (Some result) =>
      upd_this (set_csrfToken (hb_csrfToken result))
        (upd_this (set_authHeader (hb_authHeader result)) st)
  | Returns None => st
  | Throws error =>
      let st1 := log LWarn (MsgHeartbeatFailed error) st in
      let st2 := updateStatus ConnectionFailure st1 in
      let st3 := stopHeartbeat st2 in
      scheduleReconnect st3
  end.

(** ** The event loop *)

(** What can happen to an instance: the host calls a lifecycle hook, some
    caller (heartbeat, action, authenticator) asks for a digest header or
    for choices, a timer fires, or the promise of a collaborator settles and
    the segment suspended on it resumes.  [k] is the position of that
    segment among the suspended ones. *)
Inductive Label :=
| LInit (cfg : Config)
| LConfigUpdated (cfg : Config)
| LDestroy
| LDigestAuth (method uri realm' nonce' username' password' : string)
| LGetVariableChoices (type : string)
| LTimerFires (h : nat)
| LAuthSettles (k : nat) (o : Outcome (option AuthResult))
| LFetchSettles (k : nat) (o : Outcome (option (gmap string (list string))))
| LHeartbeatSettles (k : nat) (o : Outcome (option HeartbeatResult)).

Definition Task_eqb (a b : Task) : bool :=
  match a, b with
  | TAuth, TAuth | TFetch, TFetch | THeartbeat, THeartbeat => true
  | _, _ => false
  end.

(** A segment ended at an [await]: remember the suspended rest. *)
Definition suspend (r : State * option Task) : State :=
  match r with
  | (st, Some t) => set_tasks (tasks st ++ [t]) st
  | (st, None) => st
  end.

(** The [k]-th suspended segment, if it waits on [t], leaves the list. *)
Definition resume (k : nat) (t : Task) (st : State) : option State :=
  match tasks st !! k with
  | Some t' =>
      if Task_eqb t' t then Some (set_tasks (delete k (tasks st)) st)
      else None
  | None => None
  end.

(** The timer with handle [h] fires, if it is armed: a one-shot timer
    leaves the pool, a repeating one stays; then its callback runs up to its
    first suspension. *)
Definition fire (h : nat) (st : State) : option State :=
  match List.find (fun t => Nat.eqb (tid t) h) (timers st) with
  | None => None
  | Some t =>
      let st1 :=
        match kind t with
        | TimeoutT => disarm h st
        | IntervalT => st
        end in
      Some (suspend
              match callback t with
              | CbConnect => connect_begin st1
              | CbHeartbeat => heartbeat_tick st1
              end)
  end.

(** One turn of the event loop; [None] when the label is not enabled. *)
Definition step (l : Label) (st : State) : option State :=
  match l with
  | LInit cfg => Some (suspend (init cfg st))
  | LConfigUpdated cfg => Some (suspend (configUpdated cfg st))
  | LDestroy => Some (destroy st)
  | LDigestAuth m u r n us p => Some (snd (digestAuth m u r n us p st))
  | LGetVariableChoices type => Some (snd (getVariableChoices type st))
  | LTimerFires h => fire h st
  | LAuthSettles k o =>
      match resume k TAuth st with
      | Some st1 => Some (suspend (connect_after_auth o st1))
      | None => None
      end
  | LFetchSettles k o =>
      match resume k TFetch st with
      | Some st1 => Some (connect_after_fetch o st1)
      | None => None
      end
  | LHeartbeatSettles k o =>
      match resume k THeartbeat st with
      | Some st1 => Some (heartbeat_after o st1)
      | None => None
      end
  end.

(** A sequence of turns. *)
Fixpoint run (ls : list Label) (st : State) : option State :=
  match ls with
  | [] => Some st
  | l :: ls' =>
      match step l st with
      | Some st1 => run ls' st1
      | None => None
      end
  end.

(** The states an instance can be in. *)
Definition reachable (st : State) : Prop :=
  exists ls, run ls ModuleInstance_constructor = Some st.

(** ** Observations *)

(** The handle the instance keeps for each kind of timer. *)
Definition handle (k : TimerKind) (st : State) : option nat :=
  match k with
  | TimeoutT => reconnectTimeout (this st)
  | IntervalT => heartbeatInterval (this st)
  end.

(** Every armed timer is the one whose handle the instance holds, and there
    is at most one of each kind. *)
Definition timers_owned (st : State) : Prop :=
  Forall (fun t => handle (kind t) st = Some (tid t)) (timers st) /\
  (length (pending_timeouts st) <= 1)%nat /\
  (length (active_intervals st) <= 1)%nat.

(** The same on the bare timer pool and the two handles. *)
Definition owned (ts : list Timer) (rt hi : option nat) : Prop :=
  Forall (fun t => match kind t with TimeoutT => rt | IntervalT => hi end
                   = Some (tid t)) ts /\
  (length (List.filter is_timeout ts) <= 1)%nat /\
  (length (List.filter is_interval ts) <= 1)%nat.

(** The timer a call to [scheduleReconnect] in state [st] arms, and the one
    a call to [startHeartbeat] arms. *)
Definition reconnect_timer (st : State) : Timer :=
  mkTimer (nextTimer st) TimeoutT
    (reconnect_delay (reconnectAttempts (this st))) CbConnect.

Definition heartbeat_timer (st : State) : Timer :=
  mkTimer (nextTimer st) IntervalT 30000 CbHeartbeat.

(** The calls made between [st] and a later state [st']. *)
Definition new_events (st st' : State) : list Event :=
  drop (length (trace st)) (trace st').

(** Does [authenticate()] throw, given what [auth.authenticate] answers? *)
Definition authenticate_throws (o : Outcome (option AuthResult)) (st : State)
    : bool :=
  match authenticate_check st with
  | Some _ => true
  | None =>
      match authenticate_resume o st with
      | inl _ => true
      | inr _ => false
      end
  end.

(** Does [matrix.fetchMatrixFeatures] throw? *)
Definition discovery_throws
    (o : Outcome (option (gmap string (list string)))) : bool :=
  match o with
  | Throws _ => true
  | Returns _ => false
  end.

(** A required field that is empty or missing. *)
Definition empty_or_missing (v : option string) : Prop :=
  v = None \/ v = Some "".

(** The [nc] values handed to [auth.digestAuth], oldest first. *)
Fixpoint nc_values (tr : list Event) : list Z :=
  match tr with
  | [] => []
  | EvAuthDigestAuth c :: tr' => nc c :: nc_values tr'
  | _ :: tr' => nc_values tr'
  end.

(** [start, start + 1, ..., start + n - 1] *)
Fixpoint count_from (start : Z) (n : nat) : list Z :=
  match n with
  | O => []
  | S n' => start :: count_from (start + 1) n'
  end.

(** Is the turn a call to [digestAuth]?  Is it the end of a [connect] whose
    discovery succeeded? *)
Definition is_digest (l : Label) : bool :=
  match l with
  | LDigestAuth _ _ _ _ _ _ => true
  | _ => false
  end.

Definition is_connect_success (l : Label) : bool :=
  match l with
  | LFetchSettles _ (Returns _) => true
  | _ => false
  end.


Definition is_update_actions (e : Event) : bool :=
  match e with
  | EvUpdateActions => true
  | _ => false
  end.

(** Sample data for the examples below. *)
Definition cfg_full : Config :=
  mkConfig (Some "10.0.0.5") (Some "admin") (Some "secret").

Definition cfg_no_host : Config :=
  mkConfig (Some "") (Some "admin") (Some "secret").

Definition auth_ok : Outcome (option AuthResult) :=
  Returns (Some (mkAuthResult (Some "Digest ...") (Some "tok") (Some "R")
                   (Some "N"))).

Definition fetch_ok : Outcome (option (gmap string (list string))) :=
  Returns (Some {[ "sources" := ["A"; "B"] ]}).

Definition boom : Error := mkError "ECONNREFUSED".

(** A session in which three digest headers are asked for: by the
    authenticator, by the discovery and by a heartbeat probe. *)
Definition three_requests : list Label :=
  [LInit cfg_full; LDigestAuth "GET" "/api" "R" "N" "admin" "secret";
   LAuthSettles 0 auth_ok;
   LDigestAuth "GET" "/matrix" "R" "N" "admin" "secret";
   LFetchSettles 0 fetch_ok; LTimerFires 0;
   LDigestAuth "GET" "/pid" "R" "N" "admin" "secret";
   LHeartbeatSettles 0 (Returns None)].

(** [connect] is suspended on [auth.authenticate], which has asked for one
    digest header. *)
Definition st_authenticating : State :=
  default ModuleInstance_constructor
    (run [LInit cfg_full; LDigestAuth "GET" "/api" "R" "N" "admin" "secret"]
       ModuleInstance_constructor).

(** After a first successful connect: status Ok, heartbeat running. *)
Definition st_connected : State :=
  default ModuleInstance_constructor
    (run [LInit cfg_full; LAuthSettles 0 auth_ok; LFetchSettles 0 fetch_ok]
       ModuleInstance_constructor).

(** Connected, and the first heartbeat probe is in flight. *)
Definition st_probing : State :=
  default ModuleInstance_constructor
    (run [LInit cfg_full; LAuthSettles 0 auth_ok; LFetchSettles 0 fetch_ok;
          LTimerFires 0]
       ModuleInstance_constructor).

(** After a first connect that failed: a reconnect is pending. *)
Definition st_retrying : State :=
  default ModuleInstance_constructor
    (run [LInit cfg_full; LAuthSettles 0 (Throws boom)]
       ModuleInstance_constructor).

(** ** Further observations *)

(** What the two kinds of timer look like: a one-shot timer runs [connect]
    after the backoff delay, a repeating one runs the heartbeat probe every
    30 seconds. *)
Definition timer_shape (t : Timer) : Prop :=
  match kind t with
  | TimeoutT => callback t = CbConnect /\ 1000 <= ms t <= 30000
  | IntervalT => callback t = CbHeartbeat /\ ms t = 30000
  end.

(** Handles are handed out in increasing order: every armed timer and every
    handle the instance keeps is older than the next handle, and the two
    kept handles differ. *)
Definition handles_fresh (st : State) : Prop :=
  Forall (fun t => (tid t < nextTimer st)%nat) (timers st) /\
  (forall h, reconnectTimeout (this st) = Some h -> (h < nextTimer st)%nat) /\
  (forall h, heartbeatInterval (this st) = Some h -> (h < nextTimer st)%nat) /\
  (forall a b, reconnectTimeout (this st) = Some a ->
               heartbeatInterval (this st) = Some b -> a <> b).

Definition tidy (st : State) : Prop :=
  handles_fresh st /\ 0 <= reconnectAttempts (this st) /\
  Forall timer_shape (timers st).

(** Status Ok goes with a cleared failure flag and a reset backoff. *)
Definition ok_is_settled (st : State) : Prop :=
  status st = Some Ok ->
  reconnectAttempts (this st) = 0 /\ connectionFailed (this st) = false.

(** The turns that may write the session fields and the configuration. *)
Definition is_auth_success (l : Label) : bool :=
  match l with
  | LAuthSettles _ (Returns (Some _)) => true
  | _ => false
  end.

Definition is_heartbeat_refresh (l : Label) : bool :=
  match l with
  | LHeartbeatSettles _ (Returns (Some _)) => true
  | _ => false
  end.

Definition is_config_call (l : Label) : bool :=
  match l with
  | LInit _ | LConfigUpdated _ => true
  | _ => false
  end.

(** The values stored under the own key [type] of the mapping, none when
    there is no such key or [matrixVariables] is unset. *)
Definition values_of (type : string) (st : State) : list string :=
  default [] (default (∅ : gmap string (list string))
                (matrixVariables (this st)) !! type).

(** ** Proof automation *)

(** Case analysis on the branches the methods take. *)
Ltac split_paths :=
  repeat (cbn;
    match goal with
    | |- context [match heartbeatInterval (this ?s) with _ => _ end] =>
        destruct (heartbeatInterval (this s)) eqn:?
    | |- context [match reconnectTimeout (this ?s) with _ => _ end] =>
        destruct (reconnectTimeout (this s)) eqn:?
    | |- context [match config (this ?s) with _ => _ end] =>
        destruct (config (this s)) eqn:?
    | |- context [if config_incomplete ?c then _ else _] =>
        destruct (config_incomplete c) eqn:?
    | |- context [match kind ?t with _ => _ end] => destruct (kind t) eqn:?
    | |- context [match callback ?t with _ => _ end] =>
        destruct (callback t) eqn:?
    end);
  cbn.

Ltac unfold_methods :=
  unfold suspend, init, configUpdated, destroy, digestAuth,
    heartbeat_tick, heartbeat_after, connect_after_fetch, connect_after_auth,
    connect_begin, connect_catch, authenticate_check, authenticate_resume,
    startHeartbeat, scheduleReconnect, stopHeartbeat, updateActions,
    updateFeedbacks, updateVariableDefinitions, setTimeout, setInterval,
    clearTimeout, clearInterval, log.

(** The events a turn adds, once its branch is fixed. *)
Ltac trace_extension :=
  first
    [ exists []; split; [symmetry; apply app_nil_r|reflexivity]
    | eexists; split; [rewrite <- ?app_assoc; reflexivity|reflexivity] ].

(** * Properties *)

(** ** Timer ownership *)

Lemma timers_owned_elim st :
  timers_owned st ->
  owned (timers st) (reconnectTimeout (this st)) (heartbeatInterval (this st)).
Proof. intros H. exact H. Qed.

Lemma timers_owned_intro st :
  owned (timers st) (reconnectTimeout (this st)) (heartbeatInterval (this st)) ->
  timers_owned st.
Proof. intros H. exact H. Qed.

(** [getVariableChoices] touches nothing but the log. *)
Lemma getVariableChoices_frame type st :
  exists evs,
    snd (getVariableChoices type st) =
      mkState (this st) (status st) (timers st) (nextTimer st)
        (trace st ++ evs) (tasks st) /\
    forallb (fun e => match e with EvLog _ _ => true | _ => false end) evs
      = true.
Proof.
  unfold getVariableChoices, getVariableChoices_try, log, emit.
  destruct (js_falsy _ || js_length_is_zero _); cbn;
    [|destruct (js_map_choices _); cbn];
    (eexists; split; [rewrite <- !app_assoc; reflexivity|reflexivity]).
Qed.

Lemma nc_values_logs evs :
  forallb (fun e => match e with EvLog _ _ => true | _ => false end) evs
    = true ->
  nc_values evs = [].
Proof.
  induction evs as [|e evs IH]; [reflexivity|]. destruct e; simpl;
    try discriminate. exact IH.
Qed.

Section ListFacts.
Context {A : Type}.
Implicit Types (f g : A -> bool) (l : list A).

Lemma filter_filter_length f g l :
  (length (List.filter g (List.filter f l)) <= length (List.filter g l))%nat.
Proof.
  induction l as [|x l IH]; simpl; [lia|].
  destruct (f x); simpl; destruct (g x); simpl; lia.
Qed.

Lemma filter_filter_nil f g l :
  (forall x, In x l -> g x = true -> f x = false) ->
  List.filter g (List.filter f l) = [].
Proof.
  induction l as [|x l IH]; simpl; intros H; [reflexivity|].
  destruct (f x) eqn:Ef; simpl.
  - destruct (g x) eqn:Eg.
    + rewrite (H x) in Ef by auto. discriminate.
    + apply IH. intros y Hy. apply H. now right.
  - apply IH. intros y Hy. apply H. now right.
Qed.

Lemma filter_filter_stays_nil f g l :
  List.filter g l = [] -> List.filter g (List.filter f l) = [].
Proof.
  intros He. pose proof (filter_filter_length f g l) as Hl. rewrite He in Hl.
  destruct (List.filter g (List.filter f l)); [reflexivity|simpl in Hl; lia].
Qed.

Lemma filter_nil_of_none g l :
  (forall x, In x l -> g x = false) -> List.filter g l = [].
Proof.
  induction l as [|x l IH]; simpl; intros H; [reflexivity|].
  rewrite (H x) by auto. apply IH. intros y Hy. apply H. now right.
Qed.

Lemma Forall_filter_keep (P : A -> Prop) f l :
  Forall P l -> Forall P (List.filter f l).
Proof.
  induction 1 as [|x l Hx Hl IH]; simpl; [constructor|].
  destruct (f x); [constructor|]; assumption.
Qed.
End ListFacts.

Lemma kind_cases t : is_timeout t = negb (is_interval t).
Proof. unfold is_timeout, is_interval. now destruct (kind t). Qed.

Lemma both_empty_nil (ts : list Timer) :
  List.filter is_timeout ts = [] -> List.filter is_interval ts = [] -> ts = [].
Proof.
  destruct ts as [|t ts]; [reflexivity|]. simpl.
  rewrite kind_cases. destruct (is_interval t); simpl; discriminate.
Qed.

Lemma owned_unarm ts rt hi h : owned ts rt hi -> owned (unarm h ts) rt hi.
Proof.
  intros (HF & Ht & Hi). unfold unarm. split; [|split].
  - now apply Forall_filter_keep.
  - etransitivity; [apply filter_filter_length|exact Ht].
  - etransitivity; [apply filter_filter_length|exact Hi].
Qed.

Lemma owned_timeouts_gone ts h hi :
  owned ts (Some h) hi -> List.filter is_timeout (unarm h ts) = [].
Proof.
  intros (HF & _). apply filter_filter_nil. intros t Ht Hk.
  rewrite List.Forall_forall in HF. specialize (HF t Ht).
  unfold is_timeout in Hk. destruct (kind t); [|discriminate].
  injection HF as ->. now rewrite Nat.eqb_refl.
Qed.

Lemma owned_intervals_gone ts rt h :
  owned ts rt (Some h) -> List.filter is_interval (unarm h ts) = [].
Proof.
  intros (HF & _). apply filter_filter_nil. intros t Ht Hk.
  rewrite List.Forall_forall in HF. specialize (HF t Ht).
  unfold is_interval in Hk. destruct (kind t); [discriminate|].
  injection HF as ->. now rewrite Nat.eqb_refl.
Qed.

Lemma owned_no_timeout_handle ts hi :
  owned ts None hi -> List.filter is_timeout ts = [].
Proof.
  intros (HF & _). apply filter_nil_of_none. intros t Ht.
  rewrite List.Forall_forall in HF. specialize (HF t Ht).
  unfold is_timeout. destruct (kind t); [discriminate|reflexivity].
Qed.

Lemma owned_no_interval_handle ts rt :
  owned ts rt None -> List.filter is_interval ts = [].
Proof.
  intros (HF & _). apply filter_nil_of_none. intros t Ht.
  rewrite List.Forall_forall in HF. specialize (HF t Ht).
  unfold is_interval. destruct (kind t); [reflexivity|discriminate].
Qed.

Lemma owned_new_handle_timeout ts rt rt' hi :
  owned ts rt hi -> List.filter is_timeout ts = [] -> owned ts rt' hi.
Proof.
  intros (HF & Ht & Hi) He. split; [|split]; try assumption.
  rewrite List.Forall_forall in *. intros t Hin. specialize (HF t Hin).
  destruct (kind t) eqn:Ek; [|exact HF].
  exfalso. assert (In t (List.filter is_timeout ts)) as Hc.
  { apply List.filter_In. split; [assumption|]. unfold is_timeout. now rewrite Ek. }
  rewrite He in Hc. destruct Hc.
Qed.

Lemma owned_new_handle_interval ts rt hi hi' :
  owned ts rt hi -> List.filter is_interval ts = [] -> owned ts rt hi'.
Proof.
  intros (HF & Ht & Hi) He. split; [|split]; try assumption.
  rewrite List.Forall_forall in *. intros t Hin. specialize (HF t Hin).
  destruct (kind t) eqn:Ek; [exact HF|].
  exfalso. assert (In t (List.filter is_interval ts)) as Hc.
  { apply List.filter_In. split; [assumption|]. unfold is_interval. now rewrite Ek. }
  rewrite He in Hc. destruct Hc.
Qed.

Lemma owned_arm_timeout ts rt hi n d cb :
  owned ts rt hi -> List.filter is_timeout ts = [] ->
  owned (ts ++ [mkTimer n TimeoutT d cb]) (Some n) hi.
Proof.
  intros Ho He. destruct (owned_new_handle_timeout ts rt (Some n) hi Ho He)
    as (HF & Ht & Hi).
  split; [|split].
  - apply List.Forall_app. split; [exact HF|]. constructor; [reflexivity|constructor].
  - rewrite List.filter_app, He. simpl. lia.
  - rewrite List.filter_app. simpl. rewrite app_nil_r. exact Hi.
Qed.

Lemma owned_arm_interval ts rt hi n d cb :
  owned ts rt hi -> List.filter is_interval ts = [] ->
  owned (ts ++ [mkTimer n IntervalT d cb]) rt (Some n).
Proof.
  intros Ho He. destruct (owned_new_handle_interval ts rt hi (Some n) Ho He)
    as (HF & Ht & Hi).
  split; [|split].
  - apply List.Forall_app. split; [exact HF|]. constructor; [reflexivity|constructor].
  - rewrite List.filter_app. simpl. rewrite app_nil_r. exact Ht.
  - rewrite List.filter_app, He. simpl. lia.
Qed.

Lemma timers_owned_same st st' :
  timers st' = timers st ->
  reconnectTimeout (this st') = reconnectTimeout (this st) ->
  heartbeatInterval (this st') = heartbeatInterval (this st) ->
  timers_owned st -> timers_owned st'.
Proof.
  intros Ht Hr Hh Ho. apply timers_owned_intro. rewrite Ht, Hr, Hh.
  exact Ho.
Qed.

Lemma stopHeartbeat_spec st :
  timers_owned st ->
  timers_owned (stopHeartbeat st) /\
  active_intervals (stopHeartbeat st) = [] /\
  heartbeatInterval (this (stopHeartbeat st)) = None.
Proof.
  intros Ho. apply timers_owned_elim in Ho. unfold stopHeartbeat.
  destruct (heartbeatInterval (this st)) as [h|] eqn:Eh.
  - pose proof (owned_intervals_gone _ _ _ Ho) as Hg.
    split; [|split; [exact Hg|reflexivity]].
    apply timers_owned_intro. cbn.
    apply (owned_new_handle_interval _ _ (Some h)); [|exact Hg].
    now apply owned_unarm.
  - split; [|split; [|exact Eh]].
    + apply timers_owned_intro. now rewrite Eh.
    + now apply owned_no_interval_handle in Ho.
Qed.

Lemma stopHeartbeat_frame st :
  let st' := stopHeartbeat st in
  status st' = status st /\ trace st' = trace st /\ tasks st' = tasks st /\
  nextTimer st' = nextTimer st /\
  reconnectTimeout (this st') = reconnectTimeout (this st) /\
  reconnectAttempts (this st') = reconnectAttempts (this st) /\
  connectionFailed (this st') = connectionFailed (this st) /\
  ncCounter (this st') = ncCounter (this st) /\
  config (this st') = config (this st) /\
  (length (pending_timeouts st') <= length (pending_timeouts st))%nat.
Proof.
  unfold stopHeartbeat. destruct (heartbeatInterval (this st)); cbn.
  - repeat split. apply filter_filter_length.
  - repeat split. lia.
Qed.

Lemma scheduleReconnect_frame st :
  let st' := scheduleReconnect st in
  status st' = status st /\ tasks st' = tasks st /\
  trace st' = trace st ++
    [EvLog LInfo
       (MsgSchedulingReconnect (reconnect_delay (reconnectAttempts (this st))))] /\
  reconnectTimeout (this st') = Some (nextTimer st) /\
  reconnectAttempts (this st') = reconnectAttempts (this st) + 1 /\
  heartbeatInterval (this st') = heartbeatInterval (this st) /\
  connectionFailed (this st') = connectionFailed (this st) /\
  ncCounter (this st') = ncCounter (this st) /\
  config (this st') = config (this st) /\
  In (reconnect_timer st) (timers st').
Proof.
  unfold scheduleReconnect, reconnect_timer.
  destruct (reconnectTimeout (this st)); cbn;
    repeat split; apply in_or_app; right; now left.
Qed.

Lemma scheduleReconnect_spec st :
  timers_owned st ->
  let st' := scheduleReconnect st in
  timers_owned st' /\
  pending_timeouts st' = [reconnect_timer st] /\
  (active_intervals st = [] -> active_intervals st' = []).
Proof.
  intros Ho. apply timers_owned_elim in Ho.
  unfold scheduleReconnect, reconnect_timer, pending_timeouts, active_intervals.
  destruct (reconnectTimeout (this st)) as [h|] eqn:Er; cbn.
  - pose proof (owned_timeouts_gone _ _ _ Ho) as Hg.
    fold (unarm h (timers st)).
    split; [|split].
    + apply timers_owned_intro. cbn. fold (unarm h (timers st)).
      apply (owned_arm_timeout _ (Some h)); [|exact Hg]. now apply owned_unarm.
    + now rewrite List.filter_app, Hg.
    + intros He. rewrite List.filter_app. cbn. rewrite app_nil_r.
      now apply filter_filter_stays_nil.
  - pose proof (owned_no_timeout_handle _ _ Ho) as Hg.
    split; [|split].
    + apply timers_owned_intro. cbn.
      now apply (owned_arm_timeout _ None).
    + now rewrite List.filter_app, Hg.
    + intros He. rewrite List.filter_app, He. reflexivity.
Qed.

Lemma startHeartbeat_frame st :
  let st' := startHeartbeat st in
  status st' = status st /\ tasks st' = tasks st /\
  trace st' = trace st ++ [EvHeartbeatStart] /\
  heartbeatInterval (this st') = Some (nextTimer st) /\
  reconnectTimeout (this st') = reconnectTimeout (this st) /\
  reconnectAttempts (this st') = reconnectAttempts (this st) /\
  connectionFailed (this st') = connectionFailed (this st) /\
  ncCounter (this st') = ncCounter (this st) /\
  config (this st') = config (this st) /\
  In (heartbeat_timer st) (timers st').
Proof.
  unfold startHeartbeat, stopHeartbeat, heartbeat_timer.
  destruct (heartbeatInterval (this st)); cbn;
    repeat split; apply in_or_app; right; now left.
Qed.

Lemma startHeartbeat_spec st :
  timers_owned st ->
  let st' := startHeartbeat st in
  timers_owned st' /\ active_intervals st' = [heartbeat_timer st].
Proof.
  intros Ho. destruct (stopHeartbeat_spec st Ho) as (Ho1 & Hg & Hn).
  destruct (stopHeartbeat_frame st) as (_ & _ & _ & Hnt & _).
  apply timers_owned_elim in Ho1. rewrite Hn in Ho1.
  unfold active_intervals in Hg.
  unfold startHeartbeat, heartbeat_timer, active_intervals. cbn.
  rewrite Hnt. split.
  - apply timers_owned_intro. cbn. now apply (owned_arm_interval _ _ None).
  - now rewrite List.filter_app, Hg.
Qed.

Lemma destroy_spec st : timers_owned st -> timers (destroy st) = [].
Proof.
  intros Ho. destruct (stopHeartbeat_spec st Ho) as (Ho1 & Hg & Hn).
  apply timers_owned_elim in Ho1. unfold destroy.
  unfold active_intervals in Hg.
  destruct (reconnectTimeout (this (stopHeartbeat st))) as [h|] eqn:Er.
  - cbn. apply both_empty_nil.
    + eapply owned_timeouts_gone. exact Ho1.
    + now apply filter_filter_stays_nil.
  - apply both_empty_nil; [|exact Hg]. eapply owned_no_timeout_handle.
    exact Ho1.
Qed.

Lemma connect_catch_frame e st :
  let st' := connect_catch e st in
  status st' = Some ConnectionFailure /\ tasks st' = tasks st /\
  trace st' = trace st ++
    [EvLog LError (MsgConnectionFailed e); EvUpdateStatus ConnectionFailure;
     EvLog LInfo
       (MsgSchedulingReconnect (reconnect_delay (reconnectAttempts (this st))))] /\
  reconnectTimeout (this st') = Some (nextTimer st) /\
  reconnectAttempts (this st') = reconnectAttempts (this st) + 1 /\
  heartbeatInterval (this st') = heartbeatInterval (this st) /\
  connectionFailed (this st') = true /\
  ncCounter (this st') = ncCounter (this st) /\
  config (this st') = config (this st) /\
  In (reconnect_timer st) (timers st').
Proof.
  unfold connect_catch, scheduleReconnect, reconnect_timer.
  destruct (reconnectTimeout (this st)) eqn:Er; cbn; rewrite Er; cbn;
    rewrite <- !app_assoc; repeat split; apply in_or_app; right; now left.
Qed.

Lemma connect_catch_spec e st :
  timers_owned st ->
  let st' := connect_catch e st in
  timers_owned st' /\
  pending_timeouts st' = [reconnect_timer st] /\
  (active_intervals st = [] -> active_intervals st' = []).
Proof.
  intros Ho. unfold connect_catch.
  apply (scheduleReconnect_spec
           (upd_this (set_connectionFailed true)
              (updateStatus ConnectionFailure
                 (log LError (MsgConnectionFailed e) st)))).
  exact Ho.
Qed.

Lemma suspend_owned r : timers_owned (fst r) -> timers_owned (suspend r).
Proof. destruct r as [st [t|]]; intros H; exact H. Qed.

Lemma connect_begin_owned st :
  timers_owned st -> timers_owned (fst (connect_begin st)).
Proof.
  intros Ho. unfold connect_begin. destruct (authenticate_check st); cbn.
  - now apply connect_catch_spec.
  - exact Ho.
Qed.

Lemma connect_after_auth_owned o st :
  timers_owned st -> timers_owned (fst (connect_after_auth o st)).
Proof.
  intros Ho. unfold connect_after_auth, authenticate_resume.
  destruct o as [[r|]|e]; cbn; try now apply connect_catch_spec.
  exact Ho.
Qed.

Lemma connect_after_fetch_owned o st :
  timers_owned st -> timers_owned (connect_after_fetch o st).
Proof.
  intros Ho. destruct o as [mv|e]; cbn; [|now apply connect_catch_spec].
  pose proof (startHeartbeat_spec
    (updateActions (log LDebug (MsgVariablesAfterInit mv)
       (upd_this (set_matrixVariables mv) st))) Ho) as [H _].
  exact H.
Qed.

Lemma heartbeat_after_owned o st :
  timers_owned st -> timers_owned (heartbeat_after o st).
Proof.
  intros Ho. destruct o as [[r|]|e]; cbn; try exact Ho.
  apply scheduleReconnect_spec.
  apply (stopHeartbeat_spec
           (updateStatus ConnectionFailure
              (log LWarn (MsgHeartbeatFailed e) st))).
  exact Ho.
Qed.

Lemma init_owned cfg st : timers_owned st -> timers_owned (fst (init cfg st)).
Proof.
  intros Ho. unfold init. destruct (config_incomplete cfg); [exact Ho|].
  apply connect_begin_owned. exact Ho.
Qed.

Lemma configUpdated_owned cfg st :
  timers_owned st -> timers_owned (fst (configUpdated cfg st)).
Proof.
  intros Ho. unfold configUpdated. destruct (config_incomplete cfg);
    [exact Ho|].
  apply connect_begin_owned.
  apply (stopHeartbeat_spec (upd_this (set_config (Some cfg)) st)). exact Ho.
Qed.

Lemma destroy_owned st : timers_owned st -> timers_owned (destroy st).
Proof.
  intros Ho. apply timers_owned_intro. rewrite (destroy_spec st Ho).
  split; [constructor|]. simpl. lia.
Qed.

Lemma resume_owned k t st st1 :
  resume k t st = Some st1 -> timers_owned st -> timers_owned st1.
Proof.
  unfold resume. destruct (tasks st !! k) as [t'|]; [|discriminate].
  destruct (Task_eqb t' t); [|discriminate]. intros [= <-] Ho. exact Ho.
Qed.

Lemma fire_owned h st st' :
  fire h st = Some st' -> timers_owned st -> timers_owned st'.
Proof.
  unfold fire. destruct (List.find _ (timers st)) as [t|]; [|discriminate].
  intros [= <-] Ho. apply suspend_owned.
  assert (timers_owned
            match kind t with TimeoutT => disarm h st | IntervalT => st end)
    as Ho1.
  { destruct (kind t); [|exact Ho]. apply timers_owned_intro. cbn.
    apply owned_unarm. exact Ho. }
  destruct (callback t); [now apply connect_begin_owned|exact Ho1].
Qed.

Lemma step_owned l st st' :
  step l st = Some st' -> timers_owned st -> timers_owned st'.
Proof.
  destruct l; cbn.
  - intros [= <-] Ho. now apply suspend_owned, init_owned.
  - intros [= <-] Ho. now apply suspend_owned, configUpdated_owned.
  - intros [= <-] Ho. now apply destroy_owned.
  - intros [= <-] Ho. exact Ho.
  - intros [= <-] Ho.
    destruct (getVariableChoices_frame type st) as (evs & -> & _). exact Ho.
  - apply fire_owned.
  - destruct (resume k TAuth st) as [st1|] eqn:Er; [|discriminate].
    intros [= <-] Ho. apply suspend_owned, connect_after_auth_owned.
    eapply resume_owned; eassumption.
  - destruct (resume k TFetch st) as [st1|] eqn:Er; [|discriminate].
    intros [= <-] Ho. apply connect_after_fetch_owned.
    eapply resume_owned; eassumption.
  - destruct (resume k THeartbeat st) as [st1|] eqn:Er; [|discriminate].
    intros [= <-] Ho. apply heartbeat_after_owned.
    eapply resume_owned; eassumption.
Qed.

Lemma run_owned ls : forall st st',
  run ls st = Some st' -> timers_owned st -> timers_owned st'.
Proof.
  induction ls as [|l ls IH]; simpl; intros st st'.
  - intros [= <-] Ho. exact Ho.
  - destruct (step l st) as [st1|] eqn:Es; [|discriminate].
    intros Hr Ho. eapply IH; [exact Hr|]. eapply step_owned; eassumption.
Qed.

Lemma constructor_owned : timers_owned ModuleInstance_constructor.
Proof. split; [constructor|]. simpl. lia. Qed.

Lemma reachable_owned st : reachable st -> timers_owned st.
Proof.
  intros [ls Hr]. eapply run_owned; [exact Hr|]. apply constructor_owned.
Qed.

(** ** Reconnect backoff *)

Lemma reconnect_delay_small a :
  0 <= a <= 4 -> reconnect_delay a = 1000 * 2 ^ a.
Proof.
  intros [H0 H4]. unfold reconnect_delay.
  assert (2 ^ a <= 2 ^ 4) by (apply Z.pow_le_mono_r; lia).
  change (2 ^ 4) with 16 in *. lia.
Qed.

Lemma reconnect_delay_capped a : 5 <= a -> reconnect_delay a = 30000.
Proof.
  intros H5. unfold reconnect_delay.
  assert (2 ^ 5 <= 2 ^ a) by (apply Z.pow_le_mono_r; lia).
  change (2 ^ 5) with 32 in *. lia.
Qed.

(** C1: with [a = reconnectAttempts >= 0] before the call,
    [scheduleReconnect()] arms a one-shot timer whose delay is
    [min(30000, 1000 * 2^a)], keeps its handle, and leaves
    [reconnectAttempts = a + 1]; the delay is [1000 * 2^a] up to [a = 4]
    and 30000 from [a = 5] on, so for attempts 0..6 the delays are
    1000, 2000, 4000, 8000, 16000, 30000, 30000. *)
Theorem scheduleReconnect_delay (st : State) :
  0 <= reconnectAttempts (this st) ->
  let a := reconnectAttempts (this st) in
  let st' := scheduleReconnect st in
  In (mkTimer (nextTimer st) TimeoutT (Z.min 30000 (1000 * 2 ^ a)) CbConnect)
     (timers st') /\
  reconnectTimeout (this st') = Some (nextTimer st) /\
  reconnectAttempts (this st') = a + 1 /\
  (a <= 4 -> reconnect_delay a = 1000 * 2 ^ a) /\
  (5 <= a -> reconnect_delay a = 30000) /\
  map reconnect_delay [0; 1; 2; 3; 4; 5; 6] =
    [1000; 2000; 4000; 8000; 16000; 30000; 30000].
Proof.
  intros Ha a st'.
  destruct (scheduleReconnect_frame st)
    as (_ & _ & _ & Hh & Hn & _ & _ & _ & _ & Hin).
  split; [exact Hin|]. split; [exact Hh|]. split; [exact Hn|].
  split; [intros; apply reconnect_delay_small; lia|].
  split; [apply reconnect_delay_capped|reflexivity].
Qed.

Lemma scheduleReconnect_delay_witness :
  let st := upd_this (set_reconnectAttempts 5) ModuleInstance_constructor in
  In (mkTimer 0 TimeoutT 30000 CbConnect) (timers (scheduleReconnect st)) /\
  reconnectAttempts (this (scheduleReconnect st)) = 6.
Proof.
  intros st.
  assert (0 <= reconnectAttempts (this st)) as Ha by (simpl; lia).
  destruct (scheduleReconnect_delay st Ha) as (H1 & _ & H3 & _).
  split; [exact H1|exact H3].
Defined.

(** ** At most one timer of each kind *)

(** C4: in every reachable state at most one reconnect timer is pending and
    at most one heartbeat interval is active; there [scheduleReconnect()]
    leaves exactly the timer it arms pending, also when called twice in
    succession, and [startHeartbeat()] leaves exactly the interval it arms
    active. *)
Theorem one_timer_of_each_kind (st : State) :
  reachable st ->
  ((length (pending_timeouts st) <= 1)%nat /\
   (length (active_intervals st) <= 1)%nat) /\
  pending_timeouts (scheduleReconnect st) = [reconnect_timer st] /\
  pending_timeouts (scheduleReconnect (scheduleReconnect st)) =
    [reconnect_timer (scheduleReconnect st)] /\
  active_intervals (startHeartbeat st) = [heartbeat_timer st] /\
  active_intervals (startHeartbeat (startHeartbeat st)) =
    [heartbeat_timer (startHeartbeat st)].
Proof.
  intros Hr. pose proof (reachable_owned st Hr) as Ho.
  destruct (scheduleReconnect_spec st Ho) as (Ho1 & Hp1 & _).
  destruct (scheduleReconnect_spec _ Ho1) as (_ & Hp2 & _).
  destruct (startHeartbeat_spec st Ho) as (Ho3 & Hi1).
  destruct (startHeartbeat_spec _ Ho3) as (_ & Hi2).
  split; [exact (proj2 Ho)|]. repeat split; assumption.
Qed.

Lemma one_timer_of_each_kind_witness :
  pending_timeouts (scheduleReconnect (scheduleReconnect st_retrying)) =
    [mkTimer 2 TimeoutT 4000 CbConnect] /\
  active_intervals (startHeartbeat st_retrying) =
    [mkTimer 1 IntervalT 30000 CbHeartbeat].
Proof.
  assert (reachable st_retrying) as Hr.
  { exists [LInit cfg_full; LAuthSettles 0 (Throws boom)]. vm_compute.
    reflexivity. }
  destruct (one_timer_of_each_kind st_retrying Hr) as (_ & _ & H2 & H3 & _).
  split; [exact H2|exact H3].
Defined.

(** ** Teardown *)

(** C9: in every reachable state, whether or not a heartbeat is active or a
    reconnect is pending, no timer is armed once [destroy()] returns. *)
Theorem destroy_cancels_all_timers (st : State) :
  reachable st -> timers (destroy st) = [].
Proof. intros Hr. apply destroy_spec, reachable_owned, Hr. Qed.

Lemma destroy_cancels_all_timers_witness : timers (destroy st_connected) = [].
Proof.
  apply destroy_cancels_all_timers.
  exists [LInit cfg_full; LAuthSettles 0 auth_ok; LFetchSettles 0 fetch_ok].
  vm_compute. reflexivity.
Defined.

(** [destroy()] cancels timers, not suspended segments: a [connect] that is
    waiting for [auth.authenticate] when [destroy()] runs goes on when the
    promise settles, and arms its timer then. *)
Remark connect_resumes_after_destroy :
  timers <$>
    run [LInit cfg_full; LDestroy; LAuthSettles 0 (Throws boom)]
      ModuleInstance_constructor
  = Some [mkTimer 0 TimeoutT 1000 CbConnect].
Proof. vm_compute. reflexivity. Qed.

(** ** Heartbeat failure *)

Lemma resume_inv k t st st1 :
  resume k t st = Some st1 ->
  tasks st !! k = Some t /\ st1 = set_tasks (delete k (tasks st)) st.
Proof.
  unfold resume. destruct (tasks st !! k) as [t'|]; [|discriminate].
  destruct t', t; simpl; intros [= <-]; split; reflexivity.
Qed.

Lemma new_events_app st st' evs :
  trace st' = trace st ++ evs -> new_events st st' = evs.
Proof. intros H. unfold new_events. rewrite H. apply drop_app_length. Qed.

(** C8: when the promise of [heartbeat.sendHeartbeat] rejects, the interval
    callback logs a warning, sets the status to ConnectionFailure, stops
    the heartbeat interval and calls [scheduleReconnect()]; it makes no
    call to the device and suspends on nothing, so nothing is retried or
    re-authenticated from there. *)
Theorem heartbeat_failure_enters_reconnect (st st' : State) (k : nat)
    (e : Error) :
  reachable st ->
  step (LHeartbeatSettles k (Throws e)) st = Some st' ->
  active_intervals st' = [] /\
  heartbeatInterval (this st') = None /\
  status st' = Some ConnectionFailure /\
  pending_timeouts st' = [reconnect_timer st] /\
  reconnectAttempts (this st') = reconnectAttempts (this st) + 1 /\
  new_events st st' =
    [EvLog LWarn (MsgHeartbeatFailed e); EvUpdateStatus ConnectionFailure;
     EvLog LInfo
       (MsgSchedulingReconnect (reconnect_delay (reconnectAttempts (this st))))]
  /\
  forallb (fun ev => negb (is_network_call ev)) (new_events st st') = true /\
  tasks st' = delete k (tasks st).
Proof.
  intros Hr Hs. pose proof (reachable_owned st Hr) as Ho. unfold step in Hs.
  destruct (resume k THeartbeat st) as [st1|] eqn:Er; [|discriminate].
  injection Hs as <-. apply resume_inv in Er as [_ ->].
  set (st2 := updateStatus ConnectionFailure
                (log LWarn (MsgHeartbeatFailed e)
                   (set_tasks (delete k (tasks st)) st))).
  change (heartbeat_after (Throws e) (set_tasks (delete k (tasks st)) st))
    with (scheduleReconnect (stopHeartbeat st2)).
  assert (timers_owned st2) as Ho2 by exact Ho.
  destruct (stopHeartbeat_spec st2 Ho2) as (Ho3 & Hi3 & Hh3).
  destruct (stopHeartbeat_frame st2)
    as (Hst & Htr & Hta & Hnt & _ & Hra & _).
  destruct (scheduleReconnect_spec _ Ho3) as (_ & Hp & Hi).
  destruct (scheduleReconnect_frame (stopHeartbeat st2))
    as (Hst' & Hta' & Htr' & _ & Hra' & Hh' & _).
  assert (new_events st (scheduleReconnect (stopHeartbeat st2)) =
    [EvLog LWarn (MsgHeartbeatFailed e); EvUpdateStatus ConnectionFailure;
     EvLog LInfo
       (MsgSchedulingReconnect (reconnect_delay (reconnectAttempts (this st))))])
    as Hev.
  { apply new_events_app. rewrite Htr', Htr, Hra. unfold st2. cbn.
    now rewrite <- !app_assoc. }
  split; [exact (Hi Hi3)|]. split; [now rewrite Hh'|].
  split; [now rewrite Hst', Hst|].
  split; [rewrite Hp; unfold reconnect_timer; now rewrite Hnt, Hra|].
  split; [now rewrite Hra', Hra|]. split; [exact Hev|].
  split; [now rewrite Hev|]. now rewrite Hta', Hta.
Qed.

Lemma heartbeat_failure_enters_reconnect_witness :
  exists st',
    step (LHeartbeatSettles 0 (Throws boom)) st_probing = Some st' /\
    active_intervals st' = [] /\ status st' = Some ConnectionFailure /\
    pending_timeouts st' = [mkTimer 1 TimeoutT 1000 CbConnect].
Proof.
  assert (reachable st_probing) as Hr.
  { exists [LInit cfg_full; LAuthSettles 0 auth_ok; LFetchSettles 0 fetch_ok;
            LTimerFires 0].
    vm_compute. reflexivity. }
  eexists. split; [vm_compute; reflexivity|].
  eassert (step (LHeartbeatSettles 0 (Throws boom)) st_probing = Some _)
    as Hs by (vm_compute; reflexivity).
  destruct (heartbeat_failure_enters_reconnect _ _ 0%nat boom Hr Hs)
    as (H1 & _ & H3 & H4 & _).
  split; [exact H1|]. split; [exact H3|exact H4].
Defined.

(** ** Configuration *)

Lemma js_not_true v : js_not v = true <-> empty_or_missing v.
Proof.
  unfold empty_or_missing. destruct v as [[|c s]|]; simpl; split;
    try intuition congruence.
Qed.

Lemma config_incomplete_true cfg :
  config_incomplete cfg = true <->
  empty_or_missing (host cfg) \/ empty_or_missing (username cfg) \/
  empty_or_missing (password cfg).
Proof.
  unfold config_incomplete. rewrite !orb_true_iff, !js_not_true. tauto.
Qed.

Lemma config_incomplete_false cfg :
  ~ empty_or_missing (host cfg) -> ~ empty_or_missing (username cfg) ->
  ~ empty_or_missing (password cfg) -> config_incomplete cfg = false.
Proof.
  intros Hh Hu Hp. destruct (config_incomplete cfg) eqn:E; [|reflexivity].
  apply config_incomplete_true in E. tauto.
Qed.

(** C6: when any of host, username, password is empty or missing,
    [init(config)] and [configUpdated(config)] both end with the status
    BadConfig, without a call to the device, without starting [connect]
    (nothing is suspended, nothing is armed or cleared). *)
Theorem incomplete_config_is_BadConfig (cfg : Config) (st : State) :
  empty_or_missing (host cfg) \/ empty_or_missing (username cfg) \/
  empty_or_missing (password cfg) ->
  let ri := init cfg st in
  let ru := configUpdated cfg st in
  (status (fst ri) = Some BadConfig /\ snd ri = None /\
   new_events st (fst ri) =
     [EvUpdateStatus Connecting; EvUpdateFeedbacks;
      EvUpdateVariableDefinitions; EvLog LWarn MsgNotConfiguredYet;
      EvUpdateStatus BadConfig] /\
   forallb (fun ev => negb (is_network_call ev)) (new_events st (fst ri))
     = true /\
   timers (fst ri) = timers st /\ tasks (suspend ri) = tasks st) /\
  (status (fst ru) = Some BadConfig /\ snd ru = None /\
   new_events st (fst ru) =
     [EvLog LWarn MsgNotFullyConfigured; EvUpdateStatus BadConfig] /\
   forallb (fun ev => negb (is_network_call ev)) (new_events st (fst ru))
     = true /\
   timers (fst ru) = timers st /\ tasks (suspend ru) = tasks st).
Proof.
  intros Hc ri ru. apply config_incomplete_true in Hc.
  assert (new_events st (fst ri) =
     [EvUpdateStatus Connecting; EvUpdateFeedbacks;
      EvUpdateVariableDefinitions; EvLog LWarn MsgNotConfiguredYet;
      EvUpdateStatus BadConfig]) as Hi.
  { apply new_events_app. unfold ri, init. rewrite Hc. cbn.
    now rewrite <- !app_assoc. }
  assert (new_events st (fst ru) =
     [EvLog LWarn MsgNotFullyConfigured; EvUpdateStatus BadConfig]) as Hu.
  { apply new_events_app. unfold ru, configUpdated. rewrite Hc. cbn.
    now rewrite <- !app_assoc. }
  split.
  - rewrite Hi. unfold ri, init. rewrite Hc. repeat split.
  - rewrite Hu. unfold ru, configUpdated. rewrite Hc. repeat split.
Qed.

Lemma incomplete_config_is_BadConfig_witness :
  status (fst (init cfg_no_host st_connected)) = Some BadConfig /\
  status (fst (configUpdated cfg_no_host st_retrying)) = Some BadConfig.
Proof.
  assert (empty_or_missing (host cfg_no_host) \/
          empty_or_missing (username cfg_no_host) \/
          empty_or_missing (password cfg_no_host)) as Hc.
  { left. right. reflexivity. }
  split.
  - exact (proj1 (proj1 (incomplete_config_is_BadConfig cfg_no_host
                           st_connected Hc))).
  - exact (proj1 (proj2 (incomplete_config_is_BadConfig cfg_no_host
                           st_retrying Hc))).
Defined.

Lemma st_connected_reachable : reachable st_connected.
Proof.
  exists [LInit cfg_full; LAuthSettles 0 auth_ok; LFetchSettles 0 fetch_ok].
  vm_compute. reflexivity.
Qed.

(** C3, as stated, fails: with a heartbeat running, [configUpdated] called
    with an empty host leaves the interval armed and does not start
    [connect]; so it is not true that every new configuration stops the
    heartbeat and restarts the connect sequence. *)
Lemma configUpdated_bad_config_keeps_heartbeat :
  (reachable st_connected /\
   active_intervals st_connected = [mkTimer 0 IntervalT 30000 CbHeartbeat] /\
   active_intervals (fst (configUpdated cfg_no_host st_connected)) =
     [mkTimer 0 IntervalT 30000 CbHeartbeat] /\
   snd (configUpdated cfg_no_host st_connected) = None /\
   new_events st_connected (fst (configUpdated cfg_no_host st_connected)) =
     [EvLog LWarn MsgNotFullyConfigured; EvUpdateStatus BadConfig]) /\
  ~ (forall st cfg, reachable st ->
       active_intervals (fst (configUpdated cfg st)) = [] /\
       snd (configUpdated cfg st) = Some TAuth).
Proof.
  split.
  - split; [apply st_connected_reachable|]. repeat split.
  - intros H.
    destruct (H st_connected cfg_no_host st_connected_reachable) as [_ H2].
    discriminate H2.
Qed.

(** C3, amended: in every reachable state, a new configuration whose host,
    username and password are all non-empty is stored, the heartbeat
    interval is stopped, and [connect] starts over: it calls
    [auth.authenticate] and is suspended on it. *)
Theorem configUpdated_restarts_connect (cfg : Config) (st : State) :
  reachable st ->
  ~ empty_or_missing (host cfg) ->
  ~ empty_or_missing (username cfg) ->
  ~ empty_or_missing (password cfg) ->
  let r := configUpdated cfg st in
  active_intervals (fst r) = [] /\
  heartbeatInterval (this (fst r)) = None /\
  config (this (fst r)) = Some cfg /\
  r = connect_begin (stopHeartbeat (upd_this (set_config (Some cfg)) st)) /\
  snd r = Some TAuth /\
  new_events st (fst r) = [EvAuthAuthenticate] /\
  tasks (suspend r) = tasks st ++ [TAuth].
Proof.
  intros Hr Hh Hu Hp r.
  pose proof (config_incomplete_false cfg Hh Hu Hp) as Hc.
  pose proof (reachable_owned st Hr) as Ho.
  set (st1 := upd_this (set_config (Some cfg)) st).
  assert (timers_owned st1) as Ho1 by exact Ho.
  destruct (stopHeartbeat_spec st1 Ho1) as (_ & Hi & Hn).
  destruct (stopHeartbeat_frame st1)
    as (_ & Htr & Hta & _ & _ & _ & _ & _ & Hcf & _).
  assert (r = (emit EvAuthAuthenticate (stopHeartbeat st1), Some TAuth))
    as Hrr.
  { unfold r, configUpdated. rewrite Hc. fold st1. unfold connect_begin.
    unfold authenticate_check. rewrite Hcf. cbn. now rewrite Hc. }
  split; [rewrite Hrr; exact Hi|]. split; [rewrite Hrr; exact Hn|].
  split; [rewrite Hrr; exact Hcf|].
  split; [unfold r, configUpdated; now rewrite Hc|].
  split; [now rewrite Hrr|].
  split; [|rewrite Hrr; cbn; now rewrite Hta].
  apply new_events_app. rewrite Hrr. cbn. now rewrite Htr.
Qed.

Lemma configUpdated_restarts_connect_witness :
  active_intervals (fst (configUpdated cfg_full st_connected)) = [] /\
  snd (configUpdated cfg_full st_connected) = Some TAuth.
Proof.
  assert (~ empty_or_missing (Some "10.0.0.5")) as Hh
    by (intros [H|H]; discriminate H).
  assert (~ empty_or_missing (Some "admin")) as Hu
    by (intros [H|H]; discriminate H).
  assert (~ empty_or_missing (Some "secret")) as Hp
    by (intros [H|H]; discriminate H).
  assert (reachable st_connected) as Hr.
  { exists [LInit cfg_full; LAuthSettles 0 auth_ok; LFetchSettles 0 fetch_ok].
    vm_compute. reflexivity. }
  destruct (configUpdated_restarts_connect cfg_full st_connected Hr Hh Hu Hp)
    as (H1 & _ & _ & _ & H5 & _).
  split; [exact H1|exact H5].
Defined.

(** ** Variable choices *)

Lemma inherited_not_array name v :
  inherited name = Some v -> v = VObject \/ exists n, v = VFunction n.
Proof.
  unfold inherited.
  destruct (List.find _ Object_prototype) as [p|] eqn:Ef; [|discriminate].
  cbn. intros [= <-]. apply List.find_some in Ef as [Hin _].
  apply (List.in_map snd) in Hin. cbn in Hin.
  repeat (destruct Hin as [<- | Hin]; [eauto|]). destruct Hin.
Qed.


Lemma getVariableChoices_absent_empty type st :
  default ∅ (matrixVariables (this st)) !! type = None ->
  fst (getVariableChoices type st) = [].
Proof.
  intros H. unfold getVariableChoices, getVariableChoices_try, js_get. cbn.
  rewrite H. destruct (inherited type) as [v|] eqn:Ei; [|reflexivity].
  destruct (inherited_not_array _ _ Ei) as [-> | [n ->]]; cbn;
    [reflexivity|]. destruct (Z.eqb n 0); reflexivity.
Qed.




(** ** What one turn does to the two counters *)

Lemma fire_inv h st st' :
  fire h st = Some st' ->
  exists t,
    st' = suspend
            match callback t with
            | CbConnect =>
                connect_begin
                  match kind t with
                  | TimeoutT => disarm h st
                  | IntervalT => st
                  end
            | CbHeartbeat =>
                heartbeat_tick
                  match kind t with
                  | TimeoutT => disarm h st
                  | IntervalT => st
                  end
            end.
Proof.
  unfold fire. destruct (List.find _ (timers st)) as [t|]; [|discriminate].
  intros [= <-]. exists t. reflexivity.
Qed.

Lemma step_nc l st st' :
  step l st = Some st' ->
  ncCounter (this st') = ncCounter (this st) + (if is_digest l then 1 else 0)
  /\
  exists evs,
    trace st' = trace st ++ evs /\
    nc_values evs = if is_digest l then [ncCounter (this st)] else [].
Proof.
  destruct l; unfold step.
  - intros [= <-]. unfold_methods. split_paths;
      (split; [lia|trace_extension]).
  - intros [= <-]. unfold_methods. split_paths;
      (split; [lia|trace_extension]).
  - intros [= <-]. unfold_methods. split_paths;
      (split; [lia|trace_extension]).
  - intros [= <-]. cbn. split; [lia|trace_extension].
  - intros [= <-].
    destruct (getVariableChoices_frame type st) as (evs & -> & Hl). cbn.
    split; [lia|]. exists evs. split; [reflexivity|now apply nc_values_logs].
  - intros Hf. apply fire_inv in Hf as [t ->]. unfold_methods. split_paths;
      (split; [lia|trace_extension]).
  - destruct (resume k TAuth st) as [st1|] eqn:Er; [|discriminate].
    apply resume_inv in Er as [_ ->]. intros [= <-].
    destruct o as [[r|]|e]; unfold_methods; split_paths;
      (split; [lia|trace_extension]).
  - destruct (resume k TFetch st) as [st1|] eqn:Er; [|discriminate].
    apply resume_inv in Er as [_ ->]. intros [= <-].
    destruct o as [mv|e]; unfold_methods; split_paths;
      (split; [lia|trace_extension]).
  - destruct (resume k THeartbeat st) as [st1|] eqn:Er; [|discriminate].
    apply resume_inv in Er as [_ ->]. intros [= <-].
    destruct o as [[r|]|e]; unfold_methods; split_paths;
      (split; [lia|trace_extension]).
Qed.

Lemma step_attempts l st st' :
  step l st = Some st' ->
  is_connect_success l = false ->
  reconnectAttempts (this st') = reconnectAttempts (this st) \/
  reconnectAttempts (this st') = reconnectAttempts (this st) + 1.
Proof.
  destruct l; unfold step.
  - intros [= <-] _. unfold_methods. split_paths; auto.
  - intros [= <-] _. unfold_methods. split_paths; auto.
  - intros [= <-] _. unfold_methods. split_paths; auto.
  - intros [= <-] _. cbn. auto.
  - intros [= <-] _.
    destruct (getVariableChoices_frame type st) as (evs & -> & _). cbn. auto.
  - intros Hf _. apply fire_inv in Hf as [t ->]. unfold_methods.
    split_paths; auto.
  - destruct (resume k TAuth st) as [st1|] eqn:Er; [|discriminate].
    apply resume_inv in Er as [_ ->]. intros [= <-] _.
    destruct o as [[r|]|e]; unfold_methods; split_paths; auto.
  - destruct (resume k TFetch st) as [st1|] eqn:Er; [|discriminate].
    apply resume_inv in Er as [_ ->]. intros [= <-] Hs.
    destruct o as [mv|e]; [discriminate Hs|].
    unfold_methods; split_paths; auto.
  - destruct (resume k THeartbeat st) as [st1|] eqn:Er; [|discriminate].
    apply resume_inv in Er as [_ ->]. intros [= <-] _.
    destruct o as [[r|]|e]; unfold_methods; split_paths; auto.
Qed.

(** ** connect: all or nothing *)

(** C2: [connect()] run to its end either succeeds as a whole or takes the
    failure path.  When neither [authenticate()] nor feature discovery
    throws, the calls are made in the order authenticate, discover, register
    actions, start heartbeat, and then the status is Ok,
    [connectionFailed] is false and [reconnectAttempts] is 0.  When one of
    the two throws, no actions are registered, the status is
    ConnectionFailure, [connectionFailed] is true and
    [scheduleReconnect()] has run.  No other turn of the event loop resets
    [reconnectAttempts]: each keeps it or adds one. *)
Theorem connect_all_or_nothing :
  (forall o_auth o_fetch st,
     authenticate_throws o_auth st = false ->
     discovery_throws o_fetch = false ->
     let st' := connect o_auth o_fetch st in
     status st' = Some Ok /\
     connectionFailed (this st') = false /\
     reconnectAttempts (this st') = 0 /\
     heartbeatInterval (this st') = Some (nextTimer st) /\
     In (heartbeat_timer st) (timers st') /\
     exists mv,
       o_fetch = Returns mv /\
       new_events st st' =
         [EvAuthAuthenticate; EvFetchMatrixFeatures;
          EvLog LDebug (MsgVariablesAfterInit mv); EvUpdateActions;
          EvHeartbeatStart; EvUpdateStatus Ok]) /\
  (forall o_auth o_fetch st,
     authenticate_throws o_auth st || discovery_throws o_fetch = true ->
     let st' := connect o_auth o_fetch st in
     existsb is_update_actions (new_events st st') = false /\
     status st' = Some ConnectionFailure /\
     connectionFailed (this st') = true /\
     reconnectAttempts (this st') = reconnectAttempts (this st) + 1 /\
     reconnectTimeout (this st') = Some (nextTimer st) /\
     In (reconnect_timer st) (timers st') /\
     last (new_events st st') =
       Some (EvLog LInfo
               (MsgSchedulingReconnect
                  (reconnect_delay (reconnectAttempts (this st)))))) /\
  (forall l st st',
     step l st = Some st' ->
     is_connect_success l = false ->
     reconnectAttempts (this st') = reconnectAttempts (this st) \/
     reconnectAttempts (this st') = reconnectAttempts (this st) + 1).
Proof.
  split; [|split].
  - intros o_auth o_fetch st Ha Hf. unfold authenticate_throws in Ha.
    unfold connect, connect_begin, connect_after_auth.
    destruct (authenticate_check st) as [e|]; [discriminate Ha|].
    destruct o_auth as [[r|]|e]; try discriminate Ha.
    destruct o_fetch as [mv|e]; [|discriminate Hf].
    unfold_methods. split_paths.
    all: repeat (split; [reflexivity|]).
    all: split; [apply in_or_app; right; now left|].
    all: exists mv; split; [reflexivity|].
    all: apply new_events_app; cbn; rewrite <- ?app_assoc; reflexivity.
  - intros o_auth o_fetch st Hor. unfold authenticate_throws in Hor.
    unfold connect, connect_begin, connect_after_auth, reconnect_timer.
    destruct (authenticate_check st) as [e|].
    + unfold_methods. split_paths.
      all: erewrite new_events_app
        by (cbn; rewrite <- ?app_assoc; reflexivity).
      all: repeat (split; [reflexivity|]).
      all: split; [apply in_or_app; right; now left|reflexivity].
    + destruct o_auth as [[r|]|e]; [destruct o_fetch as [mv|e']| |].
      * discriminate Hor.
      * unfold_methods. split_paths.
        all: erewrite new_events_app
          by (cbn; rewrite <- ?app_assoc; reflexivity).
        all: repeat (split; [reflexivity|]).
        all: split; [apply in_or_app; right; now left|reflexivity].
      * unfold_methods. split_paths.
        all: erewrite new_events_app
          by (cbn; rewrite <- ?app_assoc; reflexivity).
        all: repeat (split; [reflexivity|]).
        all: split; [apply in_or_app; right; now left|reflexivity].
      * unfold_methods. split_paths.
        all: erewrite new_events_app
          by (cbn; rewrite <- ?app_assoc; reflexivity).
        all: repeat (split; [reflexivity|]).
        all: split; [apply in_or_app; right; now left|reflexivity].
  - apply step_attempts.
Qed.

Lemma connect_all_or_nothing_witness :
  let st := upd_this (set_config (Some cfg_full)) st_retrying in
  (status (connect auth_ok fetch_ok st) = Some Ok /\
   reconnectAttempts (this st) = 1 /\
   reconnectAttempts (this (connect auth_ok fetch_ok st)) = 0) /\
  (status (connect (Throws boom) fetch_ok st) = Some ConnectionFailure /\
   reconnectAttempts (this (connect (Throws boom) fetch_ok st)) = 2).
Proof.
  intros st. destruct connect_all_or_nothing as (Hok & Hfail & _). split.
  - assert (authenticate_throws auth_ok st = false) as Ha
      by (vm_compute; reflexivity).
    assert (discovery_throws fetch_ok = false) as Hf by reflexivity.
    destruct (Hok auth_ok fetch_ok st Ha Hf) as (H1 & _ & H3 & _).
    split; [exact H1|]. split; [vm_compute; reflexivity|exact H3].
  - assert (authenticate_throws (Throws boom) st || discovery_throws fetch_ok
            = true) as Ha by (vm_compute; reflexivity).
    destruct (Hfail (Throws boom) fetch_ok st Ha) as (_ & H2 & _ & H4 & _).
    split; [exact H2|exact H4].
Defined.

(** ** The nonce counter *)

Lemma nc_values_app tr1 tr2 :
  nc_values (tr1 ++ tr2) = nc_values tr1 ++ nc_values tr2.
Proof.
  induction tr1 as [|e tr1 IH]; [reflexivity|].
  destruct e; simpl; rewrite IH; reflexivity.
Qed.

Lemma count_from_length start n : length (count_from start n) = n.
Proof.
  revert start. induction n as [|n IH]; intros start; simpl;
    [reflexivity|]. now rewrite IH.
Qed.

Lemma count_from_lookup n : forall start (i : nat) a,
  count_from start n !! i = Some a -> a = start + Z.of_nat i.
Proof.
  induction n as [|n IH]; intros start i a; simpl; [discriminate|].
  destruct i as [|i]; simpl.
  - intros [= <-]. lia.
  - intros H. apply IH in H. lia.
Qed.

Lemma count_from_NoDup n start : NoDup (count_from start n).
Proof.
  apply NoDup_alt. intros i j a Hi Hj.
  apply count_from_lookup in Hi, Hj. lia.
Qed.

(** Along any sequence of turns the [nc] values handed out are the
    consecutive integers from the counter's value at the start. *)
Lemma run_nc ls : forall st st',
  run ls st = Some st' ->
  let n := length (List.filter is_digest ls) in
  nc_values (trace st') =
    nc_values (trace st) ++ count_from (ncCounter (this st)) n /\
  ncCounter (this st') = ncCounter (this st) + Z.of_nat n.
Proof.
  induction ls as [|l ls IH]; simpl; intros st st'.
  - intros [= <-]. rewrite app_nil_r. split; [reflexivity|lia].
  - destruct (step l st) as [st1|] eqn:Es; [|discriminate].
    intros Hr. destruct (IH _ _ Hr) as [Hv Hc].
    destruct (step_nc _ _ _ Es) as (Hc1 & evs & Ht1 & Hv1).
    rewrite Hv, Hc, Ht1, nc_values_app, Hv1, Hc1.
    destruct (is_digest l); simpl.
    + rewrite <- app_assoc. split; [reflexivity|lia].
    + rewrite app_nil_r, Z.add_0_r. split; reflexivity.
Qed.

(** C5: in every run of an instance from its construction, whatever else
    happens in between, the [nc] values that [digestAuth] hands to
    [auth.digestAuth] are 1, 2, 3, ... in this order: the request after the
    N-th carries N + 1, consecutive requests differ by exactly one, and no
    value occurs twice.  All requests draw from the one [ncCounter]. *)
Theorem nc_increases_by_one (ls : list Label) (st : State) :
  run ls ModuleInstance_constructor = Some st ->
  let ncs := nc_values (trace st) in
  ncs = count_from 1 (length ncs) /\
  (forall (i : nat) a, ncs !! i = Some a -> a = Z.of_nat i + 1) /\
  (forall (i : nat) a b,
     ncs !! i = Some a -> ncs !! S i = Some b -> b = a + 1) /\
  NoDup ncs /\
  ncCounter (this st) = Z.of_nat (length ncs) + 1.
Proof.
  intros Hr ncs. destruct (run_nc _ _ _ Hr) as [Hv Hc].
  change (nc_values (trace st)) with ncs in Hv. simpl in Hv, Hc.
  set (n := length (List.filter is_digest ls)) in *.
  assert (length ncs = n) as Hl by (rewrite Hv; apply count_from_length).
  rewrite Hl. split; [exact Hv|]. rewrite Hv.
  split; [|split; [|split]].
  - intros i a Hi. apply count_from_lookup in Hi. lia.
  - intros i a b Hi Hj. apply count_from_lookup in Hi, Hj. lia.
  - apply count_from_NoDup.
  - lia.
Qed.

Lemma nc_increases_by_one_witness :
  exists st,
    run three_requests ModuleInstance_constructor = Some st /\
    nc_values (trace st) = [1; 2; 3] /\ ncCounter (this st) = 4.
Proof.
  eexists. split; [vm_compute; reflexivity|].
  eassert (run three_requests ModuleInstance_constructor = Some _) as Hr
    by (vm_compute; reflexivity).
  destruct (nc_increases_by_one _ _ Hr) as (H1 & _ & _ & _ & H5).
  split; [exact H1|exact H5].
Defined.

Lemma run_ncCounter_le ls st st' :
  run ls st = Some st' -> ncCounter (this st) <= ncCounter (this st').
Proof. intros Hr. destruct (run_nc _ _ _ Hr) as [_ Hc]. lia. Qed.

(** C10: [ncCounter] is 1 at construction; a call to [digestAuth] adds one
    to it and no other turn (init, configUpdated, destroy, a timer firing,
    the end of an authentication, of a discovery or of a heartbeat probe)
    changes it; so it never decreases, it is at least 1 in every reachable
    state, and a re-authentication that stores a new nonce leaves it where
    the previous session brought it. *)
Theorem ncCounter_never_reset :
  ncCounter (this ModuleInstance_constructor) = 1 /\
  (forall l st st',
     step l st = Some st' ->
     ncCounter (this st') =
       ncCounter (this st) + (if is_digest l then 1 else 0)) /\
  (forall ls st st',
     run ls st = Some st' -> ncCounter (this st) <= ncCounter (this st')) /\
  (forall st, reachable st -> 1 <= ncCounter (this st)) /\
  (forall k result st st',
     step (LAuthSettles k (Returns (Some result))) st = Some st' ->
     nonce (this st') = res_nonce result /\
     ncCounter (this st') = ncCounter (this st)).
Proof.
  split; [reflexivity|]. split; [|split; [|split]].
  - intros l st st' Hs. apply (step_nc _ _ _ Hs).
  - apply run_ncCounter_le.
  - intros st [ls Hr]. apply run_ncCounter_le in Hr. exact Hr.
  - intros k result st st' Hs. split.
    + unfold step in Hs.
      destruct (resume k TAuth st) as [st1|]; [|discriminate].
      injection Hs as <-. reflexivity.
    + destruct (step_nc _ _ _ Hs) as [Hc _]. simpl in Hc. lia.
Qed.

Lemma ncCounter_never_reset_witness :
  exists st',
    step (LAuthSettles 0 auth_ok) st_authenticating = Some st' /\
    nonce (this st') = Some "N" /\ ncCounter (this st') = 2.
Proof.
  eexists. split; [vm_compute; reflexivity|].
  destruct ncCounter_never_reset as (_ & _ & _ & _ & H).
  eassert (step (LAuthSettles 0 auth_ok) st_authenticating = Some _) as Hs
    by (vm_compute; reflexivity).
  destruct (H _ _ _ _ Hs) as [Hn Hc]. split; [exact Hn|exact Hc].
Defined.

(** * Further properties *)

(** ** Reconnect backoff, continued *)

Lemma reconnect_delay_range a : 0 <= a -> 1000 <= reconnect_delay a <= 30000.
Proof.
  intros Ha. unfold reconnect_delay.
  assert (2 ^ 0 <= 2 ^ a) by (apply Z.pow_le_mono_r; lia).
  change (2 ^ 0) with 1 in *. lia.
Qed.

Lemma reconnect_delay_mono a b :
  0 <= a <= b -> reconnect_delay a <= reconnect_delay b.
Proof.
  intros [Ha Hab]. unfold reconnect_delay.
  assert (2 ^ a <= 2 ^ b) by (apply Z.pow_le_mono_r; lia). lia.
Qed.

(** ** Fresh handles and well-shaped timers *)

Lemma Forall_unarm (P : Timer -> Prop) h ts :
  Forall P ts -> Forall P (unarm h ts).
Proof. apply Forall_filter_keep. Qed.

Lemma tidy_same st st' :
  timers st' = timers st -> nextTimer st' = nextTimer st ->
  reconnectTimeout (this st') = reconnectTimeout (this st) ->
  heartbeatInterval (this st') = heartbeatInterval (this st) ->
  0 <= reconnectAttempts (this st') ->
  tidy st -> tidy st'.
Proof.
  intros Ht Hn Hr Hh Ha ((H1 & H2 & H3 & H4) & _ & H6).
  unfold tidy, handles_fresh. rewrite Ht, Hn, Hr, Hh. auto 10.
Qed.

Lemma tidy_disarm h st : tidy st -> tidy (disarm h st).
Proof.
  intros ((H1 & H2 & H3 & H4) & H5 & H6). unfold tidy, handles_fresh. cbn.
  repeat split; try assumption; now apply Forall_unarm.
Qed.

Lemma stopHeartbeat_tidy st : tidy st -> tidy (stopHeartbeat st).
Proof.
  intros Ht. unfold stopHeartbeat.
  destruct (heartbeatInterval (this st)) as [h|] eqn:Eh; [|exact Ht].
  destruct (tidy_disarm h st Ht) as ((H1 & H2 & H3 & H4) & H5 & H6).
  unfold tidy, handles_fresh. cbn in *.
  repeat split; try assumption; intros; discriminate.
Qed.

Lemma Forall_tid_lt_S n (ts : list Timer) :
  Forall (fun t => (tid t < n)%nat) ts ->
  Forall (fun t => (tid t < S n)%nat) ts.
Proof. apply List.Forall_impl. intros t Ht. lia. Qed.

Lemma scheduleReconnect_tidy st : tidy st -> tidy (scheduleReconnect st).
Proof.
  intros Ht.
  assert (tidy match reconnectTimeout (this st) with
               | Some h => clearTimeout h st
               | None => st
               end) as Ht1
    by (destruct (reconnectTimeout (this st)); [now apply tidy_disarm|exact Ht]).
  unfold scheduleReconnect.
  set (st1 := match reconnectTimeout (this st) with
              | Some h => clearTimeout h st
              | None => st
              end) in *.
  destruct Ht1 as ((H1 & H2 & H3 & H4) & H5 & H6).
  unfold tidy, handles_fresh. cbn. repeat split.
  - apply List.Forall_app. split; [now apply Forall_tid_lt_S|].
    constructor; [cbn; lia|constructor].
  - intros h [= <-]. lia.
  - intros h Hh. apply H3 in Hh. lia.
  - intros a b [= <-] Hb. apply H3 in Hb. lia.
  - lia.
  - apply List.Forall_app. split; [exact H6|].
    constructor; [|constructor]. split; [reflexivity|].
    now apply reconnect_delay_range.
Qed.

Lemma startHeartbeat_tidy st : tidy st -> tidy (startHeartbeat st).
Proof.
  intros Ht. apply stopHeartbeat_tidy in Ht. unfold startHeartbeat.
  destruct Ht as ((H1 & H2 & H3 & H4) & H5 & H6).
  unfold tidy, handles_fresh. cbn. repeat split.
  - apply List.Forall_app. split; [now apply Forall_tid_lt_S|].
    constructor; [cbn; lia|constructor].
  - intros h Hh. apply H2 in Hh. lia.
  - intros h [= <-]. lia.
  - intros a b Ha [= <-]. apply H2 in Ha. lia.
  - exact H5.
  - apply List.Forall_app. split; [exact H6|].
    constructor; [|constructor]. split; reflexivity.
Qed.

Lemma destroy_tidy st : tidy st -> tidy (destroy st).
Proof.
  intros Ht. apply stopHeartbeat_tidy in Ht. unfold destroy.
  destruct (reconnectTimeout (this (stopHeartbeat st)));
    [now apply tidy_disarm|exact Ht].
Qed.

Lemma connect_catch_tidy e st : tidy st -> tidy (connect_catch e st).
Proof.
  intros Ht. unfold connect_catch.
  apply (scheduleReconnect_tidy
           (upd_this (set_connectionFailed true)
              (updateStatus ConnectionFailure
                 (log LError (MsgConnectionFailed e) st)))).
  exact Ht.
Qed.

Lemma suspend_tidy r : tidy (fst r) -> tidy (suspend r).
Proof. destruct r as [st [t|]]; intros H; exact H. Qed.

Lemma connect_begin_tidy st : tidy st -> tidy (fst (connect_begin st)).
Proof.
  intros Ht. unfold connect_begin. destruct (authenticate_check st); cbn;
    [now apply connect_catch_tidy|exact Ht].
Qed.

Lemma connect_after_auth_tidy o st :
  tidy st -> tidy (fst (connect_after_auth o st)).
Proof.
  intros Ht. unfold connect_after_auth, authenticate_resume.
  destruct o as [[r|]|e]; cbn; try now apply connect_catch_tidy.
  exact Ht.
Qed.

Lemma connect_after_fetch_tidy o st :
  tidy st -> tidy (connect_after_fetch o st).
Proof.
  intros Ht. destruct o as [mv|e]; cbn; [|now apply connect_catch_tidy].
  pose proof (startHeartbeat_tidy
    (updateActions (log LDebug (MsgVariablesAfterInit mv)
       (upd_this (set_matrixVariables mv) st))) Ht) as H.
  eapply tidy_same; [..|exact H]; first [reflexivity|cbn; lia].
Qed.

Lemma heartbeat_after_tidy o st : tidy st -> tidy (heartbeat_after o st).
Proof.
  intros Ht. destruct o as [[r|]|e]; cbn; try exact Ht.
  apply scheduleReconnect_tidy.
  apply (stopHeartbeat_tidy
           (updateStatus ConnectionFailure
              (log LWarn (MsgHeartbeatFailed e) st))).
  exact Ht.
Qed.

Lemma init_tidy cfg st : tidy st -> tidy (fst (init cfg st)).
Proof.
  intros Ht. unfold init. destruct (config_incomplete cfg); [exact Ht|].
  apply connect_begin_tidy. exact Ht.
Qed.

Lemma configUpdated_tidy cfg st :
  tidy st -> tidy (fst (configUpdated cfg st)).
Proof.
  intros Ht. unfold configUpdated. destruct (config_incomplete cfg);
    [exact Ht|].
  apply connect_begin_tidy.
  apply (stopHeartbeat_tidy (upd_this (set_config (Some cfg)) st)). exact Ht.
Qed.

Lemma fire_tidy h st st' : fire h st = Some st' -> tidy st -> tidy st'.
Proof.
  unfold fire. destruct (List.find _ (timers st)) as [t|]; [|discriminate].
  intros [= <-] Ht. apply suspend_tidy.
  assert (tidy match kind t with TimeoutT => disarm h st | IntervalT => st end)
    as Ht1 by (destruct (kind t); [now apply tidy_disarm|exact Ht]).
  destruct (callback t); [now apply connect_begin_tidy|exact Ht1].
Qed.

Lemma step_tidy l st st' : step l st = Some st' -> tidy st -> tidy st'.
Proof.
  destruct l; cbn.
  - intros [= <-] Ht. now apply suspend_tidy, init_tidy.
  - intros [= <-] Ht. now apply suspend_tidy, configUpdated_tidy.
  - intros [= <-] Ht. now apply destroy_tidy.
  - intros [= <-] Ht. exact Ht.
  - intros [= <-] Ht.
    destruct (getVariableChoices_frame type st) as (evs & -> & _). exact Ht.
  - apply fire_tidy.
  - destruct (resume k TAuth st) as [st1|] eqn:Er; [|discriminate].
    apply resume_inv in Er as [_ ->].
    intros [= <-] Ht. now apply suspend_tidy, connect_after_auth_tidy.
  - destruct (resume k TFetch st) as [st1|] eqn:Er; [|discriminate].
    apply resume_inv in Er as [_ ->].
    intros [= <-] Ht. now apply connect_after_fetch_tidy.
  - destruct (resume k THeartbeat st) as [st1|] eqn:Er; [|discriminate].
    apply resume_inv in Er as [_ ->].
    intros [= <-] Ht. now apply heartbeat_after_tidy.
Qed.

Lemma run_tidy ls : forall st st',
  run ls st = Some st' -> tidy st -> tidy st'.
Proof.
  induction ls as [|l ls IH]; simpl; intros st st'.
  - intros [= <-] Ht. exact Ht.
  - destruct (step l st) as [st1|] eqn:Es; [|discriminate].
    intros Hr Ht. eapply IH; [exact Hr|]. eapply step_tidy; eassumption.
Qed.

Lemma reachable_tidy st : reachable st -> tidy st.
Proof.
  intros [ls Hr]. eapply run_tidy; [exact Hr|].
  repeat split; try discriminate; try (cbn; lia); constructor.
Qed.

Lemma step_ok_is_settled l st st' :
  step l st = Some st' -> ok_is_settled st -> ok_is_settled st'.
Proof.
  unfold ok_is_settled. destruct l; unfold step.
  - intros [= <-]. unfold_methods. split_paths; intros; auto; discriminate.
  - intros [= <-]. unfold_methods. split_paths; intros; auto; discriminate.
  - intros [= <-]. unfold_methods. split_paths; intros; auto.
  - intros [= <-]. cbn. auto.
  - intros [= <-].
    destruct (getVariableChoices_frame type st) as (evs & -> & _). cbn. auto.
  - intros Hf. apply fire_inv in Hf as [t ->]. unfold_methods.
    split_paths; intros; auto; discriminate.
  - destruct (resume k TAuth st) as [st1|] eqn:Er; [|discriminate].
    apply resume_inv in Er as [_ ->]. intros [= <-].
    destruct o as [[r|]|e]; unfold_methods; split_paths; intros; auto;
      discriminate.
  - destruct (resume k TFetch st) as [st1|] eqn:Er; [|discriminate].
    apply resume_inv in Er as [_ ->]. intros [= <-].
    destruct o as [mv|e]; unfold_methods; split_paths; intros; auto;
      discriminate.
  - destruct (resume k THeartbeat st) as [st1|] eqn:Er; [|discriminate].
    apply resume_inv in Er as [_ ->]. intros [= <-].
    destruct o as [[r|]|e]; unfold_methods; split_paths; intros; auto;
      discriminate.
Qed.

Lemma run_ok_is_settled ls : forall st st',
  run ls st = Some st' -> ok_is_settled st -> ok_is_settled st'.
Proof.
  induction ls as [|l ls IH]; simpl; intros st st'.
  - intros [= <-] Ht. exact Ht.
  - destruct (step l st) as [st1|] eqn:Es; [|discriminate].
    intros Hr Ht. eapply IH; [exact Hr|].
    eapply step_ok_is_settled; eassumption.
Qed.

(** X1: for attempt counts [0 <= a <= b] the backoff delay is at least one
    second, never above thirty, and does not shrink as attempts grow. *)
Theorem reconnect_delay_bounded_monotone (a b : Z) :
  0 <= a <= b ->
  1000 <= reconnect_delay a /\ reconnect_delay a <= reconnect_delay b /\
  reconnect_delay b <= 30000.
Proof.
  intros [Ha Hab]. split; [apply reconnect_delay_range; lia|].
  split; [apply reconnect_delay_mono; lia|apply reconnect_delay_range; lia].
Qed.

Lemma reconnect_delay_bounded_monotone_witness :
  1000 <= reconnect_delay 2 /\ reconnect_delay 2 <= reconnect_delay 7 /\
  reconnect_delay 7 <= 30000.
Proof. apply reconnect_delay_bounded_monotone. lia. Defined.

(** X2: in every reachable state [reconnectAttempts] is not negative, every
    pending one-shot timer runs [connect] after between 1000 and 30000 ms,
    and every repeating timer runs the heartbeat probe every 30000 ms. *)
Theorem reachable_timers_well_shaped (st : State) :
  reachable st ->
  0 <= reconnectAttempts (this st) /\
  (forall t, In t (pending_timeouts st) ->
     callback t = CbConnect /\ 1000 <= ms t <= 30000) /\
  (forall t, In t (active_intervals st) ->
     callback t = CbHeartbeat /\ ms t = 30000).
Proof.
  intros Hr. destruct (reachable_tidy st Hr) as (_ & Ha & Hs).
  rewrite List.Forall_forall in Hs. split; [exact Ha|]. split.
  - intros t Ht. apply List.filter_In in Ht as [Hin Hk].
    specialize (Hs t Hin). unfold timer_shape, is_timeout in *.
    destruct (kind t); [exact Hs|discriminate].
  - intros t Ht. apply List.filter_In in Ht as [Hin Hk].
    specialize (Hs t Hin). unfold timer_shape, is_interval in *.
    destruct (kind t); [discriminate|exact Hs].
Qed.

Lemma reachable_timers_well_shaped_witness :
  0 <= reconnectAttempts (this st_retrying) /\
  (forall t, In t (pending_timeouts st_retrying) ->
     callback t = CbConnect /\ 1000 <= ms t <= 30000).
Proof.
  assert (reachable st_retrying) as Hr.
  { exists [LInit cfg_full; LAuthSettles 0 (Throws boom)]. vm_compute.
    reflexivity. }
  destruct (reachable_timers_well_shaped st_retrying Hr) as (H1 & H2 & _).
  split; [exact H1|exact H2].
Defined.

(** X3: in every reachable state, status Ok implies that
    [reconnectAttempts] is 0 and [connectionFailed] is false. *)
Theorem status_Ok_means_settled (st : State) :
  reachable st -> status st = Some Ok ->
  reconnectAttempts (this st) = 0 /\ connectionFailed (this st) = false.
Proof.
  intros [ls Hr]. eapply run_ok_is_settled; [exact Hr|].
  intros H. discriminate H.
Qed.

Lemma status_Ok_means_settled_witness :
  reconnectAttempts (this st_connected) = 0 /\
  connectionFailed (this st_connected) = false.
Proof.
  apply status_Ok_means_settled.
  - exists [LInit cfg_full; LAuthSettles 0 auth_ok; LFetchSettles 0 fetch_ok].
    vm_compute. reflexivity.
  - vm_compute. reflexivity.
Defined.

(** ** The two timers do not disturb each other *)

Lemma filter_unarm_other (g : Timer -> bool) h ts :
  (forall t, In t ts -> g t = true -> tid t <> h) ->
  List.filter g (unarm h ts) = List.filter g ts.
Proof.
  unfold unarm. induction ts as [|t ts IH]; intros H; [reflexivity|]. simpl.
  destruct (g t) eqn:Eg.
  - assert (tid t <> h) as Hne by (apply H; [now left|exact Eg]).
    apply Nat.eqb_neq in Hne. rewrite Hne. simpl. rewrite Eg. f_equal.
    apply IH. intros t' Ht'. apply H. now right.
  - destruct (negb (tid t =? h)%nat); simpl; [rewrite Eg|];
      apply IH; intros t' Ht'; apply H; now right.
Qed.

Lemma intervals_survive_clearTimeout st h :
  timers_owned st -> tidy st -> reconnectTimeout (this st) = Some h ->
  List.filter is_interval (unarm h (timers st)) = active_intervals st.
Proof.
  intros (HF & _) ((_ & _ & _ & Hd) & _) Er. apply filter_unarm_other.
  intros t Hin Hk. rewrite List.Forall_forall in HF. specialize (HF t Hin).
  unfold is_interval in Hk. destruct (kind t); [discriminate|].
  cbn in HF. intros <-. exact (Hd _ _ Er HF eq_refl).
Qed.

Lemma timeouts_survive_clearInterval st h :
  timers_owned st -> tidy st -> heartbeatInterval (this st) = Some h ->
  List.filter is_timeout (unarm h (timers st)) = pending_timeouts st.
Proof.
  intros (HF & _) ((_ & _ & _ & Hd) & _) Eh. apply filter_unarm_other.
  intros t Hin Hk. rewrite List.Forall_forall in HF. specialize (HF t Hin).
  unfold is_timeout in Hk. destruct (kind t); [|discriminate].
  cbn in HF. intros <-. exact (Hd _ _ HF Eh eq_refl).
Qed.

Lemma stopHeartbeat_keeps_timeouts st :
  timers_owned st -> tidy st ->
  pending_timeouts (stopHeartbeat st) = pending_timeouts st.
Proof.
  intros Ho Ht. unfold stopHeartbeat.
  destruct (heartbeatInterval (this st)) as [h|] eqn:Eh; [|reflexivity].
  now apply timeouts_survive_clearInterval.
Qed.

Lemma scheduleReconnect_keeps_intervals st :
  timers_owned st -> tidy st ->
  active_intervals (scheduleReconnect st) = active_intervals st.
Proof.
  intros Ho Ht. unfold scheduleReconnect, active_intervals.
  destruct (reconnectTimeout (this st)) as [h|] eqn:Er; cbn;
    rewrite List.filter_app; cbn; rewrite app_nil_r; [|reflexivity].
  now apply intervals_survive_clearTimeout.
Qed.

Lemma startHeartbeat_keeps_timeouts st :
  timers_owned st -> tidy st ->
  pending_timeouts (startHeartbeat st) = pending_timeouts st.
Proof.
  intros Ho Ht. rewrite <- (stopHeartbeat_keeps_timeouts st Ho Ht).
  unfold startHeartbeat, pending_timeouts. cbn.
  rewrite List.filter_app. cbn. now rewrite app_nil_r.
Qed.

(** X4: in every reachable state, [scheduleReconnect()] leaves a running
    heartbeat interval armed (the stale handle it clears is never the
    heartbeat's), and [startHeartbeat()] and [stopHeartbeat()] leave a
    pending reconnect timer pending. *)
Theorem timers_do_not_interfere (st : State) :
  reachable st ->
  active_intervals (scheduleReconnect st) = active_intervals st /\
  pending_timeouts (startHeartbeat st) = pending_timeouts st /\
  pending_timeouts (stopHeartbeat st) = pending_timeouts st.
Proof.
  intros Hr. pose proof (reachable_owned st Hr) as Ho.
  pose proof (reachable_tidy st Hr) as Ht.
  split; [now apply scheduleReconnect_keeps_intervals|].
  split; [now apply startHeartbeat_keeps_timeouts|].
  now apply stopHeartbeat_keeps_timeouts.
Qed.

Lemma timers_do_not_interfere_witness :
  active_intervals (scheduleReconnect st_connected) =
    [mkTimer 0 IntervalT 30000 CbHeartbeat] /\
  pending_timeouts (startHeartbeat st_retrying) =
    [mkTimer 0 TimeoutT 1000 CbConnect].
Proof.
  assert (reachable st_connected) as Hc.
  { exists [LInit cfg_full; LAuthSettles 0 auth_ok; LFetchSettles 0 fetch_ok].
    vm_compute. reflexivity. }
  assert (reachable st_retrying) as Hr.
  { exists [LInit cfg_full; LAuthSettles 0 (Throws boom)]. vm_compute.
    reflexivity. }
  split.
  - exact (proj1 (timers_do_not_interfere st_connected Hc)).
  - exact (proj1 (proj2 (timers_do_not_interfere st_retrying Hr))).
Defined.

(** X5: neither [configUpdated(config)] (whatever the configuration) nor the
    successful end of an authentication or of a whole [connect] cancels a
    pending reconnect timer: in every reachable state the pending one-shot
    timers are the same before and after. *)
Theorem pending_reconnect_survives_connect (st : State) :
  reachable st ->
  (forall cfg,
     pending_timeouts (fst (configUpdated cfg st)) = pending_timeouts st) /\
  (forall result,
     pending_timeouts (fst (connect_after_auth (Returns (Some result)) st)) =
       pending_timeouts st) /\
  (forall mv,
     pending_timeouts (connect_after_fetch (Returns mv) st) =
       pending_timeouts st).
Proof.
  intros Hr. pose proof (reachable_owned st Hr) as Ho.
  pose proof (reachable_tidy st Hr) as Ht.
  split; [|split].
  - intros cfg. unfold configUpdated.
    destruct (config_incomplete cfg) eqn:Ec; [reflexivity|].
    unfold connect_begin, authenticate_check.
    destruct (stopHeartbeat_frame (upd_this (set_config (Some cfg)) st))
      as (_ & _ & _ & _ & _ & _ & _ & _ & Hcf & _).
    rewrite Hcf. cbn. rewrite Ec. cbn.
    apply (stopHeartbeat_keeps_timeouts (upd_this (set_config (Some cfg)) st));
      assumption.
  - intros result. reflexivity.
  - intros mv. cbn.
    apply (startHeartbeat_keeps_timeouts
             (updateActions (log LDebug (MsgVariablesAfterInit mv)
                (upd_this (set_matrixVariables mv) st)))); assumption.
Qed.

Lemma pending_reconnect_survives_connect_witness :
  pending_timeouts (fst (configUpdated cfg_full st_retrying)) =
    [mkTimer 0 TimeoutT 1000 CbConnect] /\
  pending_timeouts (connect_after_fetch fetch_ok st_retrying) =
    [mkTimer 0 TimeoutT 1000 CbConnect].
Proof.
  assert (reachable st_retrying) as Hr.
  { exists [LInit cfg_full; LAuthSettles 0 (Throws boom)]. vm_compute.
    reflexivity. }
  destruct (pending_reconnect_survives_connect st_retrying Hr)
    as (H1 & _ & H3).
  split; [exact (H1 cfg_full)|].
  exact (H3 (Some {[ "sources" := ["A"; "B"] ]})).
Defined.

(** ** Retrying with an incomplete configuration *)

Lemma find_pending_timeout st t :
  timers_owned st -> tidy st -> In t (pending_timeouts st) ->
  exists t',
    List.find (fun x => Nat.eqb (tid x) (tid t)) (timers st) = Some t' /\
    kind t' = TimeoutT /\ callback t' = CbConnect.
Proof.
  intros (HF & _) ((_ & _ & _ & Hd) & _ & Hs) Hin.
  apply List.filter_In in Hin as [Hin Hk].
  rewrite List.Forall_forall in HF, Hs.
  destruct (List.find (fun x => Nat.eqb (tid x) (tid t)) (timers st))
    as [t'|] eqn:Ef.
  - exists t'. split; [reflexivity|].
    apply List.find_some in Ef as [Hin' He]. apply Nat.eqb_eq in He.
    pose proof (HF t Hin) as Ht. pose proof (HF t' Hin') as Ht'.
    pose proof (Hs t' Hin') as Hs'. unfold timer_shape in Hs'.
    unfold is_timeout in Hk. destruct (kind t); [|discriminate].
    destruct (kind t'); cbn in *.
    + split; [reflexivity|apply Hs'].
    + exfalso. rewrite He in Ht'. exact (Hd _ _ Ht Ht' eq_refl).
  - exfalso. apply (List.find_none _ _ Ef) in Hin.
    now rewrite Nat.eqb_refl in Hin.
Qed.

(** X6: in a reachable state whose stored configuration lacks a required
    field, a pending reconnect timer still fires: [connect] then throws
    before any call to the device, the status becomes ConnectionFailure
    (also after BadConfig), and the next reconnect is scheduled with the
    next backoff delay. *)
Theorem incomplete_config_keeps_retrying (st : State) (cfg : Config)
    (t : Timer) :
  reachable st ->
  config (this st) = Some cfg -> config_incomplete cfg = true ->
  pending_timeouts st = [t] ->
  exists st',
    step (LTimerFires (tid t)) st = Some st' /\
    status st' = Some ConnectionFailure /\
    new_events st st' =
      [EvLog LError (MsgConnectionFailed (mkError "Module not fully configured"));
       EvUpdateStatus ConnectionFailure;
       EvLog LInfo
         (MsgSchedulingReconnect
            (reconnect_delay (reconnectAttempts (this st))))] /\
    pending_timeouts st' = [reconnect_timer st] /\
    reconnectAttempts (this st') = reconnectAttempts (this st) + 1 /\
    tasks st' = tasks st.
Proof.
  intros Hr Hc Hi Hp. pose proof (reachable_owned st Hr) as Ho.
  pose proof (reachable_tidy st Hr) as Ht.
  assert (In t (pending_timeouts st)) as Hin by (rewrite Hp; now left).
  destruct (find_pending_timeout st t Ho Ht Hin) as (t' & Ef & Ek & Ecb).
  set (st1 := disarm (tid t) st).
  assert (timers_owned st1) as Ho1
    by (apply timers_owned_intro; cbn; now apply owned_unarm).
  assert (connect_begin st1 =
          (connect_catch (mkError "Module not fully configured") st1, None))
    as Hb.
  { unfold connect_begin, authenticate_check. cbn. now rewrite Hc, Hi. }
  exists (connect_catch (mkError "Module not fully configured") st1).
  split.
  { unfold step, fire. rewrite Ef, Ek, Ecb. fold st1. now rewrite Hb. }
  destruct (connect_catch_frame (mkError "Module not fully configured") st1)
    as (Hst & Hta & Htr & _ & Hra & _).
  destruct (connect_catch_spec (mkError "Module not fully configured") st1 Ho1)
    as (_ & Hpt & _).
  split; [exact Hst|]. split; [now apply new_events_app|].
  split; [exact Hpt|]. split; [exact Hra|exact Hta].
Qed.

Lemma incomplete_config_keeps_retrying_witness :
  let st := fst (configUpdated cfg_no_host st_retrying) in
  exists st',
    step (LTimerFires 0) st = Some st' /\
    status st = Some BadConfig /\
    status st' = Some ConnectionFailure /\
    pending_timeouts st' = [mkTimer 1 TimeoutT 2000 CbConnect].
Proof.
  intros st.
  assert (reachable st) as Hr.
  { exists [LInit cfg_full; LAuthSettles 0 (Throws boom);
            LConfigUpdated cfg_no_host].
    vm_compute. reflexivity. }
  assert (config (this st) = Some cfg_no_host) as Hc by reflexivity.
  assert (config_incomplete cfg_no_host = true) as Hi by reflexivity.
  assert (pending_timeouts st = [mkTimer 0 TimeoutT 1000 CbConnect]) as Hp
    by (vm_compute; reflexivity).
  destruct (incomplete_config_keeps_retrying st cfg_no_host _ Hr Hc Hi Hp)
    as (st' & Hs & Hst & _ & Hpt & _).
  exists st'. split; [exact Hs|]. split; [vm_compute; reflexivity|].
  split; [exact Hst|exact Hpt].
Defined.

(** ** Which turn writes which field *)

(** X7: [realm] and [nonce] are written only when an authentication
    succeeds; [authHeader] and [csrfToken] only then or when a heartbeat
    probe resolves to a result; [config] only by [init] and
    [configUpdated].  So the turn in which an authentication, a discovery
    or a heartbeat probe fails writes none of these fields. *)
Theorem fields_written_only_by (l : Label) (st st' : State) :
  step l st = Some st' ->
  (is_auth_success l = false ->
   realm (this st') = realm (this st) /\ nonce (this st') = nonce (this st)) /\
  (is_auth_success l = false -> is_heartbeat_refresh l = false ->
   authHeader (this st') = authHeader (this st) /\
   csrfToken (this st') = csrfToken (this st)) /\
  (is_config_call l = false -> config (this st') = config (this st)).
Proof.
  destruct l; unfold step.
  - intros [= <-]. unfold_methods. split_paths; repeat split.
    all: intros; discriminate.
  - intros [= <-]. unfold_methods. split_paths; repeat split.
    all: intros; discriminate.
  - intros [= <-]. unfold_methods. split_paths; repeat split.
  - intros [= <-]. cbn. repeat split.
  - intros [= <-].
    destruct (getVariableChoices_frame type st) as (evs & -> & _). cbn.
    repeat split.
  - intros Hf. apply fire_inv in Hf as [t ->]. unfold_methods.
    split_paths; repeat split.
  - destruct (resume k TAuth st) as [st1|] eqn:Er; [|discriminate].
    apply resume_inv in Er as [_ ->]. intros [= <-].
    destruct o as [[r|]|e]; unfold_methods; split_paths; repeat split.
    all: intros; discriminate.
  - destruct (resume k TFetch st) as [st1|] eqn:Er; [|discriminate].
    apply resume_inv in Er as [_ ->]. intros [= <-].
    destruct o as [mv|e]; unfold_methods; split_paths; repeat split.
    all: intros; discriminate.
  - destruct (resume k THeartbeat st) as [st1|] eqn:Er; [|discriminate].
    apply resume_inv in Er as [_ ->]. intros [= <-].
    destruct o as [[r|]|e]; unfold_methods; split_paths; repeat split.
    all: intros; discriminate.
Qed.

Lemma fields_written_only_by_witness :
  exists st',
    step (LHeartbeatSettles 0 (Throws boom)) st_probing = Some st' /\
    nonce (this st') = Some "N" /\ authHeader (this st') = Some "Digest ...".
Proof.
  eexists. split; [vm_compute; reflexivity|].
  eassert (step (LHeartbeatSettles 0 (Throws boom)) st_probing = Some _)
    as Hs by (vm_compute; reflexivity).
  destruct (fields_written_only_by _ _ _ Hs) as (H1 & H2 & _).
  split.
  - exact (proj2 (H1 eq_refl)).
  - exact (proj1 (H2 eq_refl eq_refl)).
Defined.

(** ** Variable choices, continued *)

Lemma getVariableChoices_own type st l :
  default ∅ (matrixVariables (this st)) !! type = Some l ->
  fst (getVariableChoices type st) = map (fun value => Choice.mk value value) l.
Proof.
  intros H. unfold getVariableChoices, getVariableChoices_try, js_get. cbn.
  rewrite H. destruct l; reflexivity.
Qed.

(** X8: [getVariableChoices(type)] only reads: whatever the type and the
    state, the ids of the choices it returns, and their labels, are exactly
    the values stored under that type, in order (none when the type is
    absent or [matrixVariables] is unset); it changes no field, no timer
    and not the status, calls nothing but [log], and suspends nothing. *)
Theorem getVariableChoices_reads_only (type : string) (st : State) :
  let r := getVariableChoices type st in
  map Choice.id (fst r) = values_of type st /\
  map Choice.label (fst r) = values_of type st /\
  this (snd r) = this st /\ timers (snd r) = timers st /\
  status (snd r) = status st /\ tasks (snd r) = tasks st /\
  exists evs,
    trace (snd r) = trace st ++ evs /\
    forallb (fun e => match e with EvLog _ _ => true | _ => false end) evs
      = true.
Proof.
  cbn zeta. unfold values_of.
  destruct (getVariableChoices_frame type st) as (evs & Hs & Hl).
  assert (map Choice.id (fst (getVariableChoices type st)) =
            default [] (default ∅ (matrixVariables (this st)) !! type) /\
          map Choice.label (fst (getVariableChoices type st)) =
            default [] (default ∅ (matrixVariables (this st)) !! type))
    as [Hid Hlab].
  { destruct (default ∅ (matrixVariables (this st)) !! type) as [l|] eqn:E.
    - rewrite (getVariableChoices_own type st l E), !map_map. cbn.
      now rewrite map_id.
    - now rewrite (getVariableChoices_absent_empty type st E). }
  split; [exact Hid|]. split; [exact Hlab|]. rewrite Hs. cbn.
  do 4 (split; [reflexivity|]). exists evs. split; [reflexivity|exact Hl].
Qed.

(** ** Stopping twice *)

Lemma filter_idem {A} (f : A -> bool) l :
  List.filter f (List.filter f l) = List.filter f l.
Proof.
  induction l as [|x l IH]; [reflexivity|]. simpl.
  destruct (f x) eqn:E; simpl; [rewrite E; f_equal|]; exact IH.
Qed.

(** X9: [stopHeartbeat()] and [destroy()] are idempotent: a second call in
    a row changes nothing, in any state. *)
Theorem stop_and_destroy_idempotent (st : State) :
  stopHeartbeat (stopHeartbeat st) = stopHeartbeat st /\
  destroy (destroy st) = destroy st.
Proof.
  split.
  - unfold stopHeartbeat. destruct (heartbeatInterval (this st)) eqn:E; cbn;
      [reflexivity|now rewrite E].
  - unfold destroy, stopHeartbeat.
    destruct (heartbeatInterval (this st)) eqn:Eh; cbn;
      destruct (reconnectTimeout (this st)) eqn:Er; cbn;
      rewrite ?Eh, ?Er; cbn; rewrite ?Er; cbn;
      unfold clearTimeout, clearInterval, disarm, unarm; cbn;
      rewrite ?filter_idem; reflexivity.
Qed.

(** ** Teardown, continued *)

Lemma destroy_frame st :
  status (destroy st) = status st /\ trace (destroy st) = trace st /\
  tasks (destroy st) = tasks st /\ nextTimer (destroy st) = nextTimer st /\
  reconnectAttempts (this (destroy st)) = reconnectAttempts (this st) /\
  reconnectTimeout (this (destroy st)) = reconnectTimeout (this st) /\
  connectionFailed (this (destroy st)) = connectionFailed (this st).
Proof.
  unfold destroy, stopHeartbeat.
  destruct (heartbeatInterval (this st)); cbn;
    destruct (reconnectTimeout (this st)) eqn:Er; cbn;
    repeat split; exact Er.
Qed.

Lemma resume_ok k t st :
  tasks st !! k = Some t ->
  resume k t st = Some (set_tasks (delete k (tasks st)) st).
Proof. intros H. unfold resume. rewrite H. now destruct t. Qed.

(** X10: [destroy()] calls nothing, logs nothing, leaves the status and
    does not cancel a suspended [connect]: in a reachable state where an
    authentication is in flight, its failure after [destroy()] still sets
    the status to ConnectionFailure and arms a reconnect timer; where a
    discovery is in flight, its success after [destroy()] still starts a
    heartbeat interval and sets the status to Ok. *)
Theorem destroy_does_not_cancel_connect (st : State) (k : nat) :
  reachable st ->
  (status (destroy st) = status st /\ trace (destroy st) = trace st /\
   tasks (destroy st) = tasks st) /\
  (tasks st !! k = Some TAuth ->
   forall e, exists st',
     step (LAuthSettles k (Throws e)) (destroy st) = Some st' /\
     status st' = Some ConnectionFailure /\
     pending_timeouts st' = [reconnect_timer st]) /\
  (tasks st !! k = Some TFetch ->
   forall mv, exists st',
     step (LFetchSettles k (Returns mv)) (destroy st) = Some st' /\
     status st' = Some Ok /\
     active_intervals st' = [heartbeat_timer st]).
Proof.
  intros Hr. pose proof (reachable_owned st Hr) as Ho.
  pose proof (destroy_owned st Ho) as Hod.
  destruct (destroy_frame st) as (Hst & Htr & Hta & Hnt & Hra & _).
  split; [repeat split; assumption|]. split.
  - intros Hk e. rewrite <- Hta in Hk.
    set (s0 := set_tasks (delete k (tasks (destroy st))) (destroy st)).
    exists (connect_catch e s0). split.
    { unfold step. rewrite (resume_ok _ _ _ Hk). reflexivity. }
    destruct (connect_catch_frame e s0) as (Hs & _).
    destruct (connect_catch_spec e s0 Hod) as (_ & Hp & _).
    split; [exact Hs|]. rewrite Hp. unfold reconnect_timer. cbn.
    now rewrite Hnt, Hra.
  - intros Hk mv. rewrite <- Hta in Hk.
    set (s0 := set_tasks (delete k (tasks (destroy st))) (destroy st)).
    exists (connect_after_fetch (Returns mv) s0). split.
    { unfold step. rewrite (resume_ok _ _ _ Hk). reflexivity. }
    split; [reflexivity|]. cbn.
    destruct (startHeartbeat_spec
      (updateActions (log LDebug (MsgVariablesAfterInit mv)
         (upd_this (set_matrixVariables mv) s0))) Hod) as (_ & Hi).
    unfold active_intervals in *. cbn in *. rewrite Hi.
    unfold heartbeat_timer. cbn. now rewrite Hnt.
Qed.

Lemma destroy_does_not_cancel_connect_witness :
  exists st',
    step (LAuthSettles 0 (Throws boom)) (destroy st_authenticating) =
      Some st' /\
    pending_timeouts st' = [mkTimer 0 TimeoutT 1000 CbConnect].
Proof.
  assert (reachable st_authenticating) as Hr.
  { exists [LInit cfg_full; LDigestAuth "GET" "/api" "R" "N" "admin" "secret"].
    vm_compute. reflexivity. }
  assert (tasks st_authenticating !! 0%nat = Some TAuth) as Hk
    by (vm_compute; reflexivity).
  destruct (destroy_does_not_cancel_connect st_authenticating 0 Hr)
    as (_ & H & _).
  destruct (H Hk boom) as (st' & Hs & _ & Hp).
  exists st'. split; [exact Hs|exact Hp].
Defined.

(** ** Heartbeat failure, continued *)

Lemma scheduleReconnect_next st :
  nextTimer (scheduleReconnect st) = S (nextTimer st).
Proof.
  unfold scheduleReconnect. destruct (reconnectTimeout (this st)); reflexivity.
Qed.

Lemma heartbeat_after_throws_spec e st :
  timers_owned st ->
  let st' := heartbeat_after (Throws e) st in
  timers_owned st' /\
  active_intervals st' = [] /\
  pending_timeouts st' = [reconnect_timer st] /\
  status st' = Some ConnectionFailure /\
  reconnectAttempts (this st') = reconnectAttempts (this st) + 1 /\
  connectionFailed (this st') = connectionFailed (this st) /\
  tasks st' = tasks st /\
  heartbeatInterval (this st') = None /\
  nextTimer st' = S (nextTimer st) /\
  config (this st') = config (this st).
Proof.
  intros Ho.
  set (st2 := updateStatus ConnectionFailure
                (log LWarn (MsgHeartbeatFailed e) st)).
  change (heartbeat_after (Throws e) st)
    with (scheduleReconnect (stopHeartbeat st2)).
  assert (timers_owned st2) as Ho2 by exact Ho.
  destruct (stopHeartbeat_spec st2 Ho2) as (Ho3 & Hi3 & Hh3).
  destruct (stopHeartbeat_frame st2)
    as (Hst & Htr & Hta & Hnt & _ & Hra & Hcf & _ & Hcfg & _).
  destruct (scheduleReconnect_spec _ Ho3) as (Ho4 & Hp & Hi).
  destruct (scheduleReconnect_frame (stopHeartbeat st2))
    as (Hst' & Hta' & _ & _ & Hra' & Hh' & Hcf' & _ & Hcfg' & _).
  cbn zeta. split; [exact Ho4|]. split; [exact (Hi Hi3)|].
  split; [rewrite Hp; unfold reconnect_timer; now rewrite Hnt, Hra|].
  split; [now rewrite Hst', Hst|]. split; [now rewrite Hra', Hra|].
  split; [now rewrite Hcf', Hcf|]. split; [now rewrite Hta', Hta|].
  split; [now rewrite Hh'|].
  split; [now rewrite scheduleReconnect_next, Hnt|]. now rewrite Hcfg', Hcfg.
Qed.

(** X11: when a heartbeat probe fails while the status is Ok (in a
    reachable state), the status becomes ConnectionFailure but
    [connectionFailed] stays false (only the [catch] block of [connect]
    sets it), [reconnectAttempts] becomes 1 and the reconnect comes after
    1000 ms. *)
Theorem heartbeat_failure_from_Ok (st st' : State) (k : nat) (e : Error) :
  reachable st -> status st = Some Ok ->
  step (LHeartbeatSettles k (Throws e)) st = Some st' ->
  status st' = Some ConnectionFailure /\
  connectionFailed (this st') = false /\
  reconnectAttempts (this st') = 1 /\
  pending_timeouts st' = [mkTimer (nextTimer st) TimeoutT 1000 CbConnect].
Proof.
  intros Hr Hok Hs. pose proof (reachable_owned st Hr) as Ho.
  destruct Hr as [ls Hr].
  assert (ok_is_settled st) as Hset
    by (eapply run_ok_is_settled; [exact Hr|]; intros H; discriminate H).
  destruct (Hset Hok) as [Ha Hc]. unfold step in Hs.
  destruct (resume k THeartbeat st) as [st1|] eqn:Er; [|discriminate].
  injection Hs as <-. apply resume_inv in Er as [_ ->].
  destruct (heartbeat_after_throws_spec e
              (set_tasks (delete k (tasks st)) st) Ho)
    as (_ & _ & Hp & Hst & Hra & Hcf & _).
  split; [exact Hst|]. split; [exact (eq_trans Hcf Hc)|].
  split; [etransitivity; [exact Hra|cbn; lia]|].
  etransitivity; [exact Hp|]. unfold reconnect_timer. cbn. now rewrite Ha.
Qed.

Lemma heartbeat_failure_from_Ok_witness :
  exists st',
    step (LHeartbeatSettles 0 (Throws boom)) st_probing = Some st' /\
    status st' = Some ConnectionFailure /\
    connectionFailed (this st') = false.
Proof.
  assert (reachable st_probing) as Hr.
  { exists [LInit cfg_full; LAuthSettles 0 auth_ok; LFetchSettles 0 fetch_ok;
            LTimerFires 0].
    vm_compute. reflexivity. }
  assert (status st_probing = Some Ok) as Hok by (vm_compute; reflexivity).
  eexists. split; [vm_compute; reflexivity|].
  eassert (step (LHeartbeatSettles 0 (Throws boom)) st_probing = Some _)
    as Hs by (vm_compute; reflexivity).
  destruct (heartbeat_failure_from_Ok _ _ 0%nat boom Hr Hok Hs)
    as (H1 & H2 & _).
  split; [exact H1|exact H2].
Defined.

(** ** Repeated scheduling *)

Lemma iter_scheduleReconnect n : forall st,
  timers_owned st ->
  let st' := Nat.iter n scheduleReconnect st in
  timers_owned st' /\
  reconnectAttempts (this st') = reconnectAttempts (this st) + Z.of_nat n /\
  nextTimer st' = (nextTimer st + n)%nat.
Proof.
  induction n as [|n IH]; intros st Ho.
  - cbn. split; [exact Ho|]. split; [lia|now rewrite Nat.add_0_r].
  - destruct (IH st Ho) as (Ho' & Ha & Hn). cbn zeta.
    change (Nat.iter (S n) scheduleReconnect st)
      with (scheduleReconnect (Nat.iter n scheduleReconnect st)).
    destruct (scheduleReconnect_spec _ Ho') as (Ho'' & _).
    destruct (scheduleReconnect_frame (Nat.iter n scheduleReconnect st))
      as (_ & _ & _ & _ & Hra & _).
    split; [exact Ho''|]. split; [rewrite Hra, Ha; lia|].
    rewrite scheduleReconnect_next, Hn. lia.
Qed.

(** X12: from a reachable state with [a] attempts, [n + 1] calls to
    [scheduleReconnect()] in a row leave exactly one timer pending, the one
    of the last call, with delay [min(30000, 1000 * 2^(a + n))], and
    [reconnectAttempts = a + n + 1]. *)
Theorem scheduleReconnect_repeated (st : State) (n : nat) :
  reachable st ->
  let st' := Nat.iter (S n) scheduleReconnect st in
  pending_timeouts st' =
    [mkTimer (nextTimer st + n) TimeoutT
       (Z.min 30000 (1000 * 2 ^ (reconnectAttempts (this st) + Z.of_nat n)))
       CbConnect] /\
  reconnectAttempts (this st') = reconnectAttempts (this st) + Z.of_nat n + 1.
Proof.
  intros Hr. pose proof (reachable_owned st Hr) as Ho.
  destruct (iter_scheduleReconnect n st Ho) as (Ho' & Ha & Hn). cbn zeta.
  change (Nat.iter (S n) scheduleReconnect st)
    with (scheduleReconnect (Nat.iter n scheduleReconnect st)).
  destruct (scheduleReconnect_spec _ Ho') as (_ & Hp & _).
  destruct (scheduleReconnect_frame (Nat.iter n scheduleReconnect st))
    as (_ & _ & _ & _ & Hra & _).
  split; [|rewrite Hra, Ha; lia].
  rewrite Hp. unfold reconnect_timer, reconnect_delay. now rewrite Hn, Ha.
Qed.

Lemma scheduleReconnect_repeated_witness :
  pending_timeouts (Nat.iter 6 scheduleReconnect st_connected) =
    [mkTimer 6 TimeoutT 30000 CbConnect] /\
  reconnectAttempts (this (Nat.iter 6 scheduleReconnect st_connected)) = 6.
Proof.
  assert (reachable st_connected) as Hr.
  { exists [LInit cfg_full; LAuthSettles 0 auth_ok; LFetchSettles 0 fetch_ok].
    vm_compute. reflexivity. }
  exact (scheduleReconnect_repeated st_connected 5 Hr).
Defined.

(** ** Recovery *)

Lemma only_timeouts (ts : list Timer) :
  List.filter is_interval ts = [] -> List.filter is_timeout ts = ts.
Proof.
  induction ts as [|t ts IH]; [reflexivity|]. simpl. rewrite kind_cases.
  destruct (is_interval t); simpl; [discriminate|].
  intros H. now rewrite IH.
Qed.

Lemma fire_reconnect s h d cfg :
  timers s = [mkTimer h TimeoutT d CbConnect] ->
  config (this s) = Some cfg -> config_incomplete cfg = false ->
  exists s',
    fire h s = Some s' /\ timers s' = [] /\ tasks s' = tasks s ++ [TAuth] /\
    heartbeatInterval (this s') = heartbeatInterval (this s) /\
    nextTimer s' = nextTimer s.
Proof.
  intros Ht Hc Hi.
  exists (set_tasks (tasks s ++ [TAuth])
            (emit EvAuthAuthenticate (disarm h s))).
  split.
  - unfold fire. rewrite Ht. cbn. rewrite Nat.eqb_refl. cbn.
    unfold connect_begin, authenticate_check. cbn. now rewrite Hc, Hi.
  - cbn. rewrite Ht. cbn. rewrite Nat.eqb_refl. repeat split.
Qed.

Lemma auth_settles_ok s l result :
  tasks s = l ++ [TAuth] ->
  exists s',
    step (LAuthSettles (length l) (Returns (Some result))) s = Some s' /\
    tasks s' = l ++ [TFetch] /\ timers s' = timers s /\
    heartbeatInterval (this s') = heartbeatInterval (this s) /\
    nextTimer s' = nextTimer s.
Proof.
  intros Ht.
  assert (tasks s !! length l = Some TAuth) as Hk
    by (rewrite Ht; apply list_lookup_middle; reflexivity).
  eexists. split.
  - unfold step. rewrite (resume_ok _ _ _ Hk). reflexivity.
  - cbn. rewrite Ht, delete_middle, app_nil_r. repeat split.
Qed.

Lemma fetch_settles_ok s l mv :
  tasks s = l ++ [TFetch] -> timers s = [] ->
  heartbeatInterval (this s) = None ->
  exists s',
    step (LFetchSettles (length l) (Returns mv)) s = Some s' /\
    tasks s' = l /\ timers s' = [heartbeat_timer s] /\
    status s' = Some Ok /\ reconnectAttempts (this s') = 0 /\
    connectionFailed (this s') = false.
Proof.
  intros Ht Hti Hh.
  assert (tasks s !! length l = Some TFetch) as Hk
    by (rewrite Ht; apply list_lookup_middle; reflexivity).
  eexists. split.
  - unfold step. rewrite (resume_ok _ _ _ Hk). reflexivity.
  - unfold connect_after_fetch, startHeartbeat, stopHeartbeat. cbn.
    rewrite Hh. cbn. rewrite Ht, Hti, delete_middle, app_nil_r.
    repeat split.
Qed.

(** X13: the whole recovery.  From a reachable state with a complete
    configuration and a heartbeat probe in flight: when the probe fails,
    the reconnect timer it schedules fires, the authentication and the
    discovery succeed, then the status is Ok, [reconnectAttempts] is 0,
    [connectionFailed] is false, no reconnect is pending, exactly one
    heartbeat interval (a new one) is active, and nothing of this connect
    is left suspended. *)
Theorem recovery_after_heartbeat_failure (st : State) (cfg : Config)
    (k : nat) (e : Error) (result : AuthResult)
    (mv : option (gmap string (list string))) :
  reachable st ->
  config (this st) = Some cfg -> config_incomplete cfg = false ->
  tasks st !! k = Some THeartbeat ->
  let n := length (delete k (tasks st)) in
  exists st',
    run [LHeartbeatSettles k (Throws e); LTimerFires (nextTimer st);
         LAuthSettles n (Returns (Some result)); LFetchSettles n (Returns mv)]
      st = Some st' /\
    status st' = Some Ok /\
    reconnectAttempts (this st') = 0 /\
    connectionFailed (this st') = false /\
    timers st' = [mkTimer (S (nextTimer st)) IntervalT 30000 CbHeartbeat] /\
    tasks st' = delete k (tasks st).
Proof.
  intros Hr Hc Hi Hk n. pose proof (reachable_owned st Hr) as Ho.
  set (s0 := set_tasks (delete k (tasks st)) st).
  destruct (heartbeat_after_throws_spec e s0 Ho)
    as (_ & Hi1 & Hp1 & _ & _ & _ & Hta1 & Hh1 & Hn1 & Hc1).
  set (s1 := heartbeat_after (Throws e) s0) in *.
  assert (timers s1 = [reconnect_timer s0]) as Ht1
    by (rewrite <- Hp1; symmetry; now apply only_timeouts).
  assert (config (this s1) = Some cfg) as Hc1' by (rewrite Hc1; exact Hc).
  destruct (fire_reconnect s1 _ _ cfg Ht1 Hc1' Hi)
    as (s2 & Hs2 & Ht2 & Hta2 & Hh2 & Hn2).
  rewrite Hta1 in Hta2.
  destruct (auth_settles_ok s2 _ result Hta2)
    as (s3 & Hs3 & Hta3 & Ht3 & Hh3 & Hn3).
  assert (timers s3 = []) as Ht3' by (rewrite Ht3; exact Ht2).
  assert (heartbeatInterval (this s3) = None) as Hh3'
    by (rewrite Hh3, Hh2; exact Hh1).
  destruct (fetch_settles_ok s3 _ mv Hta3 Ht3' Hh3')
    as (s4 & Hs4 & Hta4 & Ht4 & Hst4 & Ha4 & Hcf4).
  exists s4. split.
  - cbn [run]. unfold step at 1. rewrite (resume_ok _ _ _ Hk). fold s0 s1.
    change (step (LTimerFires (nextTimer st)) s1)
      with (fire (nextTimer s0) s1).
    rewrite Hs2. change (length (tasks s0)) with n in Hs3, Hs4.
    now rewrite Hs3, Hs4.
  - split; [exact Hst4|]. split; [exact Ha4|]. split; [exact Hcf4|].
    split; [|exact Hta4]. rewrite Ht4. unfold heartbeat_timer.
    now rewrite Hn3, Hn2, Hn1.
Qed.

Lemma recovery_after_heartbeat_failure_witness :
  exists st',
    run [LHeartbeatSettles 0 (Throws boom); LTimerFires 1;
         LAuthSettles 0 auth_ok; LFetchSettles 0 fetch_ok] st_probing
      = Some st' /\
    status st' = Some Ok /\
    timers st' = [mkTimer 2 IntervalT 30000 CbHeartbeat].
Proof.
  assert (reachable st_probing) as Hr.
  { exists [LInit cfg_full; LAuthSettles 0 auth_ok; LFetchSettles 0 fetch_ok;
            LTimerFires 0].
    vm_compute. reflexivity. }
  assert (config (this st_probing) = Some cfg_full) as Hc
    by (vm_compute; reflexivity).
  assert (config_incomplete cfg_full = false) as Hi by reflexivity.
  assert (tasks st_probing !! 0%nat = Some THeartbeat) as Hk
    by (vm_compute; reflexivity).
  destruct (recovery_after_heartbeat_failure st_probing cfg_full 0 boom
              (mkAuthResult (Some "Digest ...") (Some "tok") (Some "R")
                 (Some "N"))
              (Some {[ "sources" := ["A"; "B"] ]}) Hr Hc Hi Hk)
    as (st' & Hrun & Hst & _ & _ & Ht & _).
  exists st'. split; [exact Hrun|]. split; [exact Hst|exact Ht].
Defined.

(** ** Starting a connect *)

Lemma configUpdated_complete cfg st :
  config_incomplete cfg = false ->
  configUpdated cfg st =
    (emit EvAuthAuthenticate
       (stopHeartbeat (upd_this (set_config (Some cfg)) st)), Some TAuth).
Proof.
  intros Hc. unfold configUpdated. rewrite Hc.
  unfold connect_begin, authenticate_check.
  destruct (stopHeartbeat_frame (upd_this (set_config (Some cfg)) st))
    as (_ & _ & _ & _ & _ & _ & _ & _ & Hcf & _).
  rewrite Hcf. cbn. now rewrite Hc.
Qed.

Lemma configUpdated_complete_frame cfg st :
  config_incomplete cfg = false ->
  let st' := suspend (configUpdated cfg st) in
  tasks st' = tasks st ++ [TAuth] /\
  trace st' = trace st ++ [EvAuthAuthenticate] /\
  config (this st') = Some cfg.
Proof.
  intros Hc. cbn zeta. rewrite (configUpdated_complete cfg st Hc).
  destruct (stopHeartbeat_frame (upd_this (set_config (Some cfg)) st))
    as (_ & Htr & Hta & _ & _ & _ & _ & _ & Hcf & _).
  cbn [suspend]. split; [cbn; now rewrite Hta|].
  split; [cbn; now rewrite Htr|]. exact Hcf.
Qed.

(** X14: [configUpdated] neither waits for nor cancels a [connect] that is
    already suspended: two calls in a row with complete configurations make
    two calls to [auth.authenticate] and leave two authentications in
    flight, the last configuration stored. *)
Theorem configUpdated_twice_overlaps (st : State) (cfg1 cfg2 : Config) :
  config_incomplete cfg1 = false -> config_incomplete cfg2 = false ->
  let st1 := suspend (configUpdated cfg1 st) in
  let st2 := suspend (configUpdated cfg2 st1) in
  tasks st2 = tasks st ++ [TAuth; TAuth] /\
  new_events st st2 = [EvAuthAuthenticate; EvAuthAuthenticate] /\
  config (this st2) = Some cfg2.
Proof.
  intros H1 H2 st1 st2.
  destruct (configUpdated_complete_frame cfg1 st H1) as (Hta1 & Htr1 & _).
  destruct (configUpdated_complete_frame cfg2 st1 H2) as (Hta2 & Htr2 & Hc2).
  fold st1 in Hta1, Htr1. fold st2 in Hta2, Htr2, Hc2.
  split; [rewrite Hta2, Hta1, <- app_assoc; reflexivity|].
  split; [|exact Hc2].
  apply new_events_app. rewrite Htr2, Htr1, <- app_assoc. reflexivity.
Qed.

Lemma configUpdated_twice_overlaps_witness :
  tasks (suspend (configUpdated cfg_full
                    (suspend (configUpdated cfg_full st_connected)))) =
    [TAuth; TAuth].
Proof.
  assert (config_incomplete cfg_full = false) as Hc by reflexivity.
  destruct (configUpdated_twice_overlaps st_connected cfg_full cfg_full Hc Hc)
    as (H & _).
  vm_compute in H. vm_compute. exact H.
Defined.

(** X15: with a complete configuration [init(config)] stores it, sets the
    status to Connecting, registers feedbacks and variable definitions,
    and starts [connect]: [auth.authenticate] is called and [init] is
    suspended on it.  Unlike [configUpdated] it arms and clears no timer. *)
Theorem init_starts_connect (cfg : Config) (st : State) :
  config_incomplete cfg = false ->
  let r := init cfg st in
  snd r = Some TAuth /\
  status (fst r) = Some Connecting /\
  config (this (fst r)) = Some cfg /\
  timers (fst r) = timers st /\
  new_events st (fst r) =
    [EvUpdateStatus Connecting; EvUpdateFeedbacks;
     EvUpdateVariableDefinitions; EvLog LInfo MsgInitializing;
     EvAuthAuthenticate].
Proof.
  intros Hc. cbn zeta. unfold init. rewrite Hc. unfold connect_begin.
  set (s := log LInfo MsgInitializing _).
  assert (authenticate_check s = None) as E
    by (unfold authenticate_check; cbn; now rewrite Hc).
  rewrite E. subst s. cbn.
  do 4 (split; [reflexivity|]).
  apply new_events_app. cbn. now rewrite <- !app_assoc.
Qed.

Lemma init_starts_connect_witness :
  snd (init cfg_full ModuleInstance_constructor) = Some TAuth /\
  status (fst (init cfg_full ModuleInstance_constructor)) = Some Connecting.
Proof.
  destruct (init_starts_connect cfg_full ModuleInstance_constructor eq_refl)
    as (H1 & H2 & _).
  split; [exact H1|exact H2].
Defined.

(** X16: when the authentication succeeds and the discovery then throws,
    [connect] takes the failure path with the new session already stored:
    [authHeader], [csrfToken], [realm] and [nonce] are those of the
    authentication result, [matrixVariables] is unchanged, the status is
    ConnectionFailure, and (in a reachable state) no heartbeat interval is
    started or stopped. *)
Theorem discovery_failure_keeps_new_session (st : State)
    (result : AuthResult) (e : Error) :
  reachable st -> authenticate_check st = None ->
  let st' := connect (Returns (Some result)) (Throws e) st in
  authHeader (this st') = res_authHeader result /\
  csrfToken (this st') = res_csrfToken result /\
  realm (this st') = res_realm result /\
  nonce (this st') = res_nonce result /\
  matrixVariables (this st') = matrixVariables (this st) /\
  status st' = Some ConnectionFailure /\
  active_intervals st' = active_intervals st.
Proof.
  intros Hr Hc. pose proof (reachable_owned st Hr) as Ho.
  pose proof (reachable_tidy st Hr) as Ht. cbn zeta.
  unfold connect, connect_begin. rewrite Hc.
  unfold connect_after_auth, authenticate_resume.
  cbn [connect_after_fetch].
  set (s2 := emit EvFetchMatrixFeatures _).
  assert (timers_owned s2) as Ho2 by exact Ho.
  assert (tidy s2) as Ht2 by exact Ht.
  split; [|split; [|split; [|split; [|split; [|split]]]]].
  7: { unfold connect_catch.
       apply (scheduleReconnect_keeps_intervals
                (upd_this (set_connectionFailed true)
                   (updateStatus ConnectionFailure
                      (log LError (MsgConnectionFailed e) s2)))); assumption. }
  all: unfold connect_catch, scheduleReconnect; cbn;
    destruct (reconnectTimeout (this st)); reflexivity.
Qed.

Lemma discovery_failure_keeps_new_session_witness :
  nonce (this (connect auth_ok (Throws boom) st_retrying)) = Some "N" /\
  status (connect auth_ok (Throws boom) st_retrying) =
    Some ConnectionFailure.
Proof.
  assert (reachable st_retrying) as Hr.
  { exists [LInit cfg_full; LAuthSettles 0 (Throws boom)]. vm_compute.
    reflexivity. }
  assert (authenticate_check st_retrying = None) as Hc
    by (vm_compute; reflexivity).
  destruct (discovery_failure_keeps_new_session st_retrying
              (mkAuthResult (Some "Digest ...") (Some "tok") (Some "R")
                 (Some "N")) boom Hr Hc)
    as (_ & _ & _ & H4 & _ & H6 & _).
  split; [exact H4|exact H6].
Defined.

(** X17: in every reachable state, the successful end of a [connect]
    leaves exactly one heartbeat interval active, the one it has just
    armed and whose handle it keeps, also when a heartbeat was already
    running (as after overlapping connects). *)
Theorem connect_success_restarts_heartbeat (st : State)
    (mv : option (gmap string (list string))) :
  reachable st ->
  let st' := connect_after_fetch (Returns mv) st in
  active_intervals st' = [heartbeat_timer st] /\
  heartbeatInterval (this st') = Some (nextTimer st).
Proof.
  intros Hr. pose proof (reachable_owned st Hr) as Ho. cbn zeta.
  destruct (startHeartbeat_spec
    (updateActions (log LDebug (MsgVariablesAfterInit mv)
       (upd_this (set_matrixVariables mv) st))) Ho) as (_ & Hi).
  destruct (startHeartbeat_frame
    (updateActions (log LDebug (MsgVariablesAfterInit mv)
       (upd_this (set_matrixVariables mv) st)))) as (_ & _ & _ & Hh & _).
  split; [exact Hi|exact Hh].
Qed.

Lemma connect_success_restarts_heartbeat_witness :
  active_intervals (connect_after_fetch fetch_ok st_connected) =
    [mkTimer 1 IntervalT 30000 CbHeartbeat].
Proof.
  assert (reachable st_connected) as Hr.
  { exists [LInit cfg_full; LAuthSettles 0 auth_ok; LFetchSettles 0 fetch_ok].
    vm_compute. reflexivity. }
  exact (proj1 (connect_success_restarts_heartbeat st_connected
                  (Some {[ "sources" := ["A"; "B"] ]}) Hr)).
Defined.
